(** * respiratory-admissions: the IMD reshaper and the HES repair/collapse pipeline

    A shallow embedding of [tools/process_imd.py] and
    [tools/repair_synthetic_hes.py].

    Conventions of the embedding.
    - A nullable cell (NaN, NaT, <NA>, SQL NULL) is [None].
    - A pandas timestamp is the integer number of nanoseconds since the
      Unix epoch, as [datetime64[ns]] holds it; arithmetic on timestamps is
      exact integer arithmetic (frames whose date differences do not fit a
      64-bit Timedelta make pandas raise and are outside the embedding).
    - Strings are byte strings; Python and DuckDB order text by code point,
      which on UTF-8 bytes is [String.compare].
    - An exception is a value of [exn]; code that may raise returns
      [result].  Code that touches the file system also returns the list of
      file events it performed, in order.
    - A GROUP BY yields its groups in no specified order; the embedding
      enumerates them in a fixed order, and the general statements speak of
      membership only. *)

From Stdlib Require Import ZArith QArith Qround String Ascii.
From stdpp Require Import base decidable option list sorting strings.

Local Open Scope string_scope.
Local Open Scope Z_scope.

(** ** Exceptions *)

Inductive exn : Type :=
  | FileNotFoundError
  | ValueError
  | KeyError.

Inductive result (A : Type) : Type :=
  | Ok (a : A)
  | Raise (e : exn).
Arguments Ok {A} a.
Arguments Raise {A} e.

(** ** tools/process_imd.py *)

Module ProcessImd.

(** One row of the sheet after the renaming of line 8-11. *)
Record imd_row : Type := mkImdRow {
  lsoa11_code : option string;
  imd_decile : Z
}.

Record imd_out : Type := mkImdOut {
  out_lsoa11_code : option string;
  out_imd_decile : Z;
  out_imd_quintile : Z
}.

(** Line 12: [(imd["imd_decile"] - 1) // 2 + 1]; [//] is floor division. *)
Definition imd_quintile (imd_decile : Z) : Z := (imd_decile - 1) / 2 + 1.

Definition main (imd : list imd_row) : list imd_out :=
  map (fun r => mkImdOut (lsoa11_code r) (imd_decile r)
                  (imd_quintile (imd_decile r))) imd.

End ProcessImd.

(** ** tools/repair_synthetic_hes.py: the data model *)

(** A date cell as [pd.read_csv(..., parse_dates=...)] leaves it: a
    timestamp when the column parsed, the raw text when it did not, or a
    missing value. *)
Inductive datecell : Type :=
  | NaT
  | Text (s : string)
  | Stamp (t : Z).

(** An episode row restricted to [NEEDED_COLS] (lines 12-17), with the
    dtypes of lines 38-52. *)
Record episode : Type := mkEpisode {
  PSEUDO_HESID : option string;
  EPIKEY : option Z;
  ADMIDATE : datecell;
  DISDATE : datecell;
  ADMIMETH : option string;
  ADMISORC : option string;
  DIAG_4_01 : option string;
  ETHNOS : option string;
  SEX : option string;
  STARTAGE : option Z;
  LSOA11 : option string;
  SPELBGIN : option Z;
  SPELEND : option string;
  FYEAR : option Z;
  PARTYEAR : option Z
}.

(** A row of the IMD parquet, restricted to the three columns the join can
    touch.  [imd_columns] lists the columns the file really has; a cell of
    a column that is not listed is never read. *)
Record imd_record : Type := mkImdRecord {
  imd_lsoa11_code : option string;
  imd_LSOA11 : option string;
  imd_imd_quintile : option Z
}.

Record imd_frame : Type := mkImdFrame {
  imd_columns : list string;
  imd_rows : list imd_record
}.

(** An episode row after [attach_imd]: the merge adds [imd_quintile]. *)
Record joined : Type := mkJoined {
  ep : episode;
  ep_imd_quintile : option Z
}.

(** An episode row as registered with DuckDB (line 110): both dates
    repaired, [los_days] added. *)
Record cleaned : Type := mkCleaned {
  src : joined;
  ep_adm : option Z;
  ep_dis : option Z;
  ep_los_days : option Z
}.

(** A row of the result of the SQL query (lines 113-187). *)
Record spell_row : Type := mkSpellRow {
  sp_PSEUDO_HESID : option string;
  adm : option Z;
  dis : option Z;
  n_episodes : Z;
  los_days : option Z;
  any_emerg : option bool;
  imd_quintile : option Z;
  primary_diag : option string;
  ethnicity : option string;
  sex : option string
}.

(** A row of the returned frame: [spell_id] is added at lines 196-200. *)
Record spell : Type := mkSpell {
  row : spell_row;
  spell_id : option string
}.

(** The file system the scripts run against, and the file events a run
    performs; [Makedirs of_file] is
    [os.makedirs(os.path.dirname(of_file), exist_ok=True)]. *)
Record filesystem : Type := mkFilesystem {
  isdir : string -> bool;
  glob : string -> list string;
  read_csv : string -> result (list episode);
  read_parquet : string -> result imd_frame
}.

Inductive event : Type :=
  | ReadCsv (path : string)
  | ReadParquet (path : string)
  | Makedirs (of_file : string)
  | ToParquet (path : string) (rows : list spell).

(** A computation that performs file events and may raise. *)
Definition io (A : Type) : Type := (list event * result A)%type.

Definition io_raise {A} (e : exn) : io A := ([], Raise e).
Definition io_lift {A} (r : result A) : io A := ([], r).

#[global] Instance io_ret : MRet io := fun A a => ([], Ok a).
#[global] Instance io_bind : MBind io := fun A B k m =>
  match m with
  | (t, Ok a) => let '(t', r) := k a in ((t ++ t')%list, r)
  | (t, Raise e) => (t, Raise e)
  end.

Fixpoint io_for {A B} (f : A -> io B) (l : list A) : io (list B) :=
  match l with
  | [] => mret []
  | x :: l' => y ← f x; ys ← io_for f l'; mret (y :: ys)
  end.

(** ** tools/repair_synthetic_hes.py: the loader *)

(** Python's [l[start:]]: a negative start counts from the end, and the
    start is clamped to the list. *)
Definition slice_from {A} (start : Z) (l : list A) : list A :=
  let len := Z.of_nat (length l) in
  let s := if start <? 0 then Z.max (start + len) 0 else Z.min start len in
  drop (Z.to_nat s) l.

(** [sorted] on a list of [str]. *)
Definition sorted (l : list string) : list string := merge_sort String.le l.

(** [list_year_csvs], lines 25-31.  [globbed] is what
    [glob.glob(os.path.join(path, "*.csv"))] returned. *)
Definition list_year_csvs (globbed : list string) (n_years : option Z)
  : result (list string) :=
  let files := sorted globbed in
  let files := match n_years with
               | Some n => slice_from (- n) files
               | None => files
               end in
  match files with
  | [] => Raise FileNotFoundError
  | _ => Ok files
  end.

(** [os.path.join(a, b)] for a relative [b]. *)
Fixpoint ends_with_sep (s : string) : bool :=
  match s with
  | EmptyString => false
  | String c EmptyString => bool_decide (c = "/"%char)
  | String _ s' => ends_with_sep s'
  end.

Definition path_join (a b : string) : string :=
  if bool_decide (a = "") then b
  else if ends_with_sep a then (a ++ b)%string
  else (a ++ "/" ++ b)%string.

(** [load_df], lines 34-80 ([print] is not modelled). *)
Definition read_one (fs : filesystem) (path : string) : io (list episode) :=
  ([ReadCsv path], read_csv fs path).

Definition load_df (fs : filesystem) (inp : string) (n_years : option Z)
  : io (list episode) :=
  out ← (if isdir fs inp then
            files ← io_lift (list_year_csvs (glob fs (path_join inp "*.csv")) n_years);
            dfs ← io_for (read_one fs) files;
            mret (concat dfs)
          else read_one fs inp);
  match out with
  | [] => io_raise ValueError
  | _ => mret out
  end.

(** ** The deprivation join *)

(** [DataFrame.drop_duplicates(subset)], keeping the first row of each key;
    missing keys are equal to each other. *)
Fixpoint drop_duplicates_from {A K} `{EqDecision K} (key : A -> K)
    (seen : list K) (l : list A) : list A :=
  match l with
  | [] => []
  | x :: l' =>
      if decide (key x ∈ seen) then drop_duplicates_from key seen l'
      else x :: drop_duplicates_from key (key x :: seen) l'
  end.

Definition drop_duplicates {A K} `{EqDecision K} (key : A -> K) (l : list A)
  : list A := drop_duplicates_from key [] l.

(** A left outer join: every left row in order, once per right row that
    satisfies [on], or once with a missing right side when none does. *)
Definition left_join {L R C} (on : L -> R -> bool) (mk : L -> option R -> C)
    (left : list L) (right : list R) : list C :=
  flat_map (fun l =>
    match filter (fun r => on l r = true) right with
    | [] => [mk l None]
    | ms => map (fun r => mk l (Some r)) ms
    end) left.

(** [left.merge(right, on=key, how="left")]: pandas matches a missing key
    with a missing key. *)
Definition merge_left {L R K C} `{EqDecision K} (lkey : L -> K) (rkey : R -> K)
    (mk : L -> option R -> C) (left : list L) (right : list R) : list C :=
  left_join (fun l r => bool_decide (lkey l = rkey r)) mk left right.

Definition rename_column (old new : string) (cols : list string) : list string :=
  map (fun c => if bool_decide (c = old) then new else c) cols.

(** [attach_imd] after [pd.read_parquet], lines 85-90.  The episode frame
    always has the column [LSOA11].  After the renaming a frame that had
    both names carries the label [LSOA11] twice, which [merge] refuses. *)
Definition attach_imd_frame (df : list episode) (imd : imd_frame)
  : result (list joined) :=
  let renamed := bool_decide ("lsoa11_code" ∈ imd_columns imd) in
  let cols := if renamed then rename_column "lsoa11_code" "LSOA11" (imd_columns imd)
              else imd_columns imd in
  let code := if renamed then imd_lsoa11_code else imd_LSOA11 in
  if negb (bool_decide ("LSOA11" ∈ cols) && bool_decide ("imd_quintile" ∈ cols))
  then Raise KeyError
  else if renamed && bool_decide ("LSOA11" ∈ imd_columns imd)
  then Raise ValueError
  else
    let lookup := map (fun r => (code r, imd_imd_quintile r)) (imd_rows imd) in
    Ok (merge_left LSOA11 fst
          (fun e m => mkJoined e (m ≫= snd))
          df (drop_duplicates fst lookup)).

Definition attach_imd (fs : filesystem) (df : list episode) (imd_parquet : string)
  : io (list joined) :=
  imd ← ([ReadParquet imd_parquet], read_parquet fs imd_parquet) : io imd_frame;
  io_lift (attach_imd_frame df imd).

(** ** Date repair and spell aggregation *)

Definition ns_per_day : Z := 86400000000000.

(** Days from 1970-01-01 to a date of the proleptic Gregorian calendar. *)
Definition days_from_civil (y m d : Z) : Z :=
  let y := if m <=? 2 then y - 1 else y in
  let era := y / 400 in
  let yoe := y - era * 400 in
  let doy := (153 * (if m <=? 2 then m + 9 else m - 3) + 2) / 5 + d - 1 in
  let doe := yoe * 365 + yoe / 4 - yoe / 100 + doy in
  era * 146097 + doe - 719468.

(** [pd.Timestamp("y-m-d")]: midnight of that day. *)
Definition Timestamp (y m d : Z) : Z := days_from_civil y m d * ns_per_day.

(** [CUTOFF = pd.Timestamp("1900-01-01")], line 10. *)
Definition CUTOFF : Z := Timestamp 1900 1 1.

(** Line 101: [df.loc[df[c] < CUTOFF, c] = pd.NaT]; a comparison with NaT
    is false. *)
Definition null_before_cutoff (t : option Z) : option Z :=
  match t with
  | Some x => if x <? CUTOFF then None else Some x
  | None => None
  end.

(** [(d - a).dt.days + 1], lines 102 and 190: [.dt.days] is the floor of
    the difference in days. *)
Definition days_plus_one (a d : option Z) : option Z :=
  match a, d with
  | Some a, Some d => Some ((d - a) / ns_per_day + 1)
  | _, _ => None
  end.

(** Line 103: [df.loc[df["los_days"] <= 0, "los_days"] = pd.NA]. *)
Definition null_non_positive (l : option Z) : option Z :=
  match l with
  | Some x => if x <=? 0 then None else Some x
  | None => None
  end.

(** *** The SQL fragment used by the query *)

(** [x = y]: unknown as soon as one side is NULL. *)
Definition sql_eq {V} `{EqDecision V} (x y : option V) : option bool :=
  match x, y with
  | Some a, Some b => Some (bool_decide (a = b))
  | _, _ => None
  end.

(** Three-valued [AND]. *)
Definition sql_and (a b : option bool) : option bool :=
  match a, b with
  | Some false, _ | _, Some false => Some false
  | Some true, Some true => Some true
  | _, _ => None
  end.

(** A join or filter condition holds only when it is TRUE. *)
Definition sql_holds (c : option bool) : bool := bool_decide (c = Some true).

Definition sql_coalesce {V} (x y : option V) : option V :=
  match x with
  | Some _ => x
  | None => y
  end.

Definition sql_left (s : option string) (n : nat) : option string :=
  (fun s => substring 0 n s) <$> s.

(** GROUP BY: the distinct keys, NULL equal to NULL, and the rows of one
    key. *)
Definition group_keys {A K} `{EqDecision K} (key : A -> K) (l : list A) : list K :=
  remove_dups (map key l).

Definition group_rows {A K} `{EqDecision K} (key : A -> K) (k : K) (l : list A)
  : list A := filter (fun x => key x = k) l.

(** Aggregates; all of them skip NULL. *)
Definition count_distinct {V} `{EqDecision V} (vs : list (option V)) : Z :=
  Z.of_nat (length (remove_dups (omap id vs))).

Definition sql_max (vs : list (option Z)) : option Z :=
  foldr (fun v acc =>
           match v, acc with
           | Some x, Some y => Some (Z.max x y)
           | Some x, None => Some x
           | None, _ => acc
           end) None vs.

Definition bool_or (vs : list (option bool)) : option bool :=
  foldr (fun v acc =>
           match v, acc with
           | Some x, Some y => Some (x || y)
           | Some x, None => Some x
           | None, _ => acc
           end) None vs.

Definition any_value {V} (vs : list (option V)) : option V := head (omap id vs).

(** The grouping key [(PSEUDO_HESID, adm, dis)]. *)
Definition spell_key : Type := (option string * option Z * option Z)%type.

Definition key_of (e : cleaned) : spell_key :=
  (PSEUDO_HESID (ep (src e)), ep_adm e, ep_dis e).

(** [b.PSEUDO_HESID = d.PSEUDO_HESID AND b.adm = d.adm AND b.dis = d.dis]. *)
Definition on_key (b d : spell_key) : bool :=
  sql_holds (sql_and (sql_and (sql_eq b.1.1 d.1.1) (sql_eq b.1.2 d.1.2))
                     (sql_eq b.2 d.2)).

(** The CTE [base], lines 114-126. *)
Record base_row : Type := mkBaseRow {
  b_key : spell_key;
  b_n_episodes : Z;
  b_los_days : option Z;
  b_any_emerg : option bool;
  b_imd_quintile : option Z
}.

(** [LEFT(COALESCE(CAST(ADMIMETH AS VARCHAR),''),1)='2']; the cast of a
    text value is the value. *)
Definition is_emergency (admimeth : option string) : option bool :=
  sql_eq (sql_left (sql_coalesce admimeth (Some "")) 1) (Some "2").

(** The row of [base] for the group of key [k]. *)
Definition base_of (episodes : list cleaned) (k : spell_key) : base_row :=
  let g := group_rows key_of k episodes in
  mkBaseRow k
    (count_distinct (map (fun e => EPIKEY (ep (src e))) g))
    (sql_max (map ep_los_days g))
    (bool_or (map (fun e => is_emergency (ADMIMETH (ep (src e)))) g))
    (any_value (map (fun e => ep_imd_quintile (src e)) g)).

Definition base (episodes : list cleaned) : list base_row :=
  map (base_of episodes) (group_keys key_of episodes).

(** The CTEs [diag_counts], [ethn_counts], [sex_counts]: the same query on
    three columns. *)
Record count_row : Type := mkCountRow {
  c_key : spell_key;
  c_v : string;
  c_cnt : Z
}.

Definition counts (col : cleaned -> option string) (episodes : list cleaned)
  : list count_row :=
  let selected := omap (fun e => (fun v => (key_of e, v)) <$> col e) episodes in
  map (fun kv => mkCountRow kv.1 kv.2
                   (Z.of_nat (length (group_rows id kv selected))))
      (group_keys id selected).

(** [ORDER BY cnt DESC, v].  A categorical column reaches DuckDB with its
    categories in sorted order, a text column as text: either way [v] is
    ordered as text. *)
Definition mode_order (x y : count_row) : Prop :=
  c_cnt y < c_cnt x \/ (c_cnt x = c_cnt y /\ String.le (c_v x) (c_v y)).

#[global] Instance mode_order_dec : RelDecision mode_order.
Proof. intros x y. unfold mode_order. apply _. Defined.

(** The row numbered 1 by [ROW_NUMBER() OVER (PARTITION BY PSEUDO_HESID,
    adm, dis ORDER BY cnt DESC, v)] in the partition of key [k], if the
    partition has a row. *)
Definition mode_row (cs : list count_row) (k : spell_key)
  : option (spell_key * string) :=
  (fun r => (k, c_v r)) <$> head (merge_sort mode_order (group_rows c_key k cs)).

(** The CTEs [diag_mode], [ethn_mode], [sex_mode]: the row numbered 1 of
    each partition. *)
Definition mode (cs : list count_row) : list (spell_key * string) :=
  omap (mode_row cs) (group_keys c_key cs).

(** The final SELECT with its three LEFT JOINs, lines 178-186. *)
Definition collapse (episodes : list cleaned) : list spell_row :=
  let d := mode (counts (fun e => DIAG_4_01 (ep (src e))) episodes) in
  let e := mode (counts (fun e => ETHNOS (ep (src e))) episodes) in
  let s := mode (counts (fun e => SEX (ep (src e))) episodes) in
  let bd := left_join (fun b d => on_key (b_key b) d.1)
              (fun b d => (b, snd <$> d)) (base episodes) d in
  let bde := left_join (fun b e => on_key (b_key b.1) e.1)
               (fun b e => (b, snd <$> e)) bd e in
  left_join (fun b s => on_key (b_key b.1.1) s.1)
    (fun b s =>
       let b0 := b.1.1 in
       mkSpellRow (b_key b0).1.1 (b_key b0).1.2 (b_key b0).2
         (b_n_episodes b0) (b_los_days b0) (b_any_emerg b0) (b_imd_quintile b0)
         b.1.2 b.2 (snd <$> s))
    bde s.

(** String concatenation on the nullable string dtype: NA propagates. *)
Definition str_add (a b : option string) : option string :=
  match a, b with
  | Some x, Some y => Some (x ++ y)%string
  | _, _ => None
  end.

(** Lines 191-192. *)
Definition los_ok (los : option Z) : bool :=
  match los with
  | None => true
  | Some l => (1 <=? l) && (l <=? 365 * 2)
  end.

Section Pipeline.

(** [pd.to_datetime(text, errors="coerce")] on one piece of text, and
    [astype("string")] on one timestamp. *)
Variable parse_text : string -> option Z.
Variable timestamp_to_string : Z -> string.

(** Line 100. *)
Definition to_datetime (c : datecell) : option Z :=
  match c with
  | NaT => None
  | Text s => parse_text s
  | Stamp t => Some t
  end.

(** Lines 98-103 on one row. *)
Definition repair_date (c : datecell) : option Z :=
  null_before_cutoff (to_datetime c).

Definition clean (j : joined) : cleaned :=
  let a := repair_date (ADMIDATE (ep j)) in
  let d := repair_date (DISDATE (ep j)) in
  mkCleaned j a d (null_non_positive (days_plus_one a d)).

(** Lines 190-200 on one row of the query result. *)
Definition recompute_los (r : spell_row) : spell_row :=
  mkSpellRow (sp_PSEUDO_HESID r) (adm r) (dis r) (n_episodes r)
    (days_plus_one (adm r) (dis r))
    (any_emerg r) (imd_quintile r) (primary_diag r) (ethnicity r) (sex r).

Definition make_spell_id (r : spell_row) : option string :=
  str_add (str_add (str_add (str_add (sp_PSEUDO_HESID r) (Some "|"))
                      (timestamp_to_string <$> adm r))
             (Some "|"))
    (timestamp_to_string <$> dis r).

(** [clean_and_collapse], lines 93-204. *)
Definition clean_and_collapse (df : list joined) : list spell :=
  let episodes := map clean df in
  let spell := map recompute_los (collapse episodes) in
  let spell := filter (fun r => los_ok (los_days r) = true) spell in
  map (fun r => mkSpell r (make_spell_id r)) spell.

(** [main], lines 207-223. *)
Definition main (fs : filesystem) (inp imd_parquet outp : string)
    (n_years : option Z) : io unit :=
  df ← load_df fs inp n_years;
  df ← attach_imd fs df imd_parquet;
  let spell := clean_and_collapse df in
  ([Makedirs outp; ToParquet outp spell], Ok ()).

End Pipeline.

(** ** Derived forms used in the statements *)

(** The key of an output spell. *)
Definition spell_key_of (r : spell_row) : spell_key :=
  (sp_PSEUDO_HESID r, adm r, dis r).

(** A key none of whose components is missing. *)
Definition complete (k : spell_key) : Prop :=
  is_Some k.1.1 /\ is_Some k.1.2 /\ is_Some k.2.

(** The value a LEFT JOIN on the key picks from one of the mode tables. *)
Definition mode_at (ms : list (spell_key * string)) (k : spell_key)
  : option string :=
  snd <$> head (filter (fun m => on_key k m.1 = true) ms).

(** The row the query returns for one group. *)
Definition spell_of (episodes : list cleaned) (k : spell_key) : spell_row :=
  let b := base_of episodes k in
  mkSpellRow k.1.1 k.1.2 k.2
    (b_n_episodes b) (b_los_days b) (b_any_emerg b) (b_imd_quintile b)
    (mode_at (mode (counts (fun e => DIAG_4_01 (ep (src e))) episodes)) k)
    (mode_at (mode (counts (fun e => ETHNOS (ep (src e))) episodes)) k)
    (mode_at (mode (counts (fun e => SEX (ep (src e))) episodes)) k).

(** The code column of the lookup, under whichever accepted name. *)
Definition lookup_codes (imd : imd_frame) : list (option string) :=
  if bool_decide ("lsoa11_code" ∈ imd_columns imd)
  then map imd_lsoa11_code (imd_rows imd)
  else map imd_LSOA11 (imd_rows imd).

(** The row the merge returns for one episode against a deduplicated
    lookup. *)
Definition attach_row (right : list (option string * option Z)) (e : episode)
  : joined :=
  mkJoined e
    (head (filter (fun r => bool_decide (LSOA11 e = r.1) = true) right) ≫= snd).

(** What the specification asks of one date field: [parsed] is the parse
    of the cell (missing when it does not parse), [out] the repaired
    value. *)
Definition date_repaired (parsed out : option Z) : Prop :=
  match parsed with
  | None => out = None
  | Some t => (t < CUTOFF -> out = None) /\ (CUTOFF <= t -> out = Some t)
  end.

(** The statistical mode with the lexicographic tie-break, in the
    specification's words: [m] is missing when there is no value, and
    otherwise it is a value no other value occurs more often than, and the
    smallest of the values that occur as often. *)
Definition occurrences (v : string) (vals : list string) : Z :=
  Z.of_nat (length (filter (fun w => w = v) vals)).

Definition is_mode_lex (vals : list string) (m : option string) : Prop :=
  match m with
  | None => vals = []
  | Some v =>
      v ∈ vals /\
      forall w, w ∈ vals ->
        occurrences w vals <= occurrences v vals /\
        (occurrences w vals = occurrences v vals -> String.le v w)
  end.

(** The non-null values of one column in one group. *)
Definition group_values (col : cleaned -> option string)
    (episodes : list cleaned) (k : spell_key) : list string :=
  omap col (group_rows key_of k episodes).

(** Whether a string is free of the delimiter of [spell_id]. *)
Fixpoint bar_free (s : string) : bool :=
  match s with
  | EmptyString => true
  | String c s' => negb (Ascii.eqb c "|") && bar_free s'
  end.

(** ** Further definitions of the source and of the statements *)

#[global] Instance complete_dec (k : spell_key) : Decision (complete k).
Proof. unfold complete. apply _. Defined.

(** [mode_or_nan], lines 20-22, on a text column: [dropna], then the first
    entry of [Series.mode], which lists the most frequent values in sorted
    order, or a missing value when there is none. *)
Definition dropna {V} (s : list (option V)) : list V := omap id s.

Definition series_mode (s : list string) : list string :=
  merge_sort String.le
    (filter (fun v => Forall (fun w => occurrences w s <= occurrences v s) s)
       (remove_dups s)).

Definition mode_or_nan (s : list (option string)) : option string :=
  head (series_mode (dropna s)).

(** The frame [pd.read_parquet] returns for the file the reshaper wrote
    with [imd.to_parquet(outp, index=False)]: its three columns, row by
    row. *)
Definition written_parquet (rows : list ProcessImd.imd_out) : imd_frame :=
  mkImdFrame ["lsoa11_code"; "imd_decile"; "imd_quintile"]
    (map (fun r => mkImdRecord (ProcessImd.out_lsoa11_code r) None
                     (Some (ProcessImd.out_imd_quintile r))) rows).

(** The code and quintile columns of the lookup, the code under whichever
    accepted name. *)
Definition lookup_pairs (imd : imd_frame) : list (option string * option Z) :=
  map (fun r => ((if bool_decide ("lsoa11_code" ∈ imd_columns imd)
                  then imd_lsoa11_code r else imd_LSOA11 r),
                 imd_imd_quintile r))
      (imd_rows imd).

(** Events that only read. *)
Definition is_read (ev : event) : bool :=
  match ev with
  | ReadCsv _ | ReadParquet _ => true
  | Makedirs _ | ToParquet _ _ => false
  end.

(** A spell without its [imd_quintile], the one field the query takes from
    an arbitrary episode of the group. *)
Definition forget_quintile (s : spell) : spell :=
  let r := row s in
  mkSpell
    (mkSpellRow (sp_PSEUDO_HESID r) (adm r) (dis r) (n_episodes r) (los_days r)
       (any_emerg r) None (primary_diag r) (ethnicity r) (sex r))
    (spell_id s).

(** ** Sample inputs *)

(** A directory without any CSV file. *)
Definition empty_directory : filesystem :=
  mkFilesystem (fun _ => true) (fun _ => []) (fun _ => Raise FileNotFoundError)
    (fun _ => Raise FileNotFoundError).

(** An episode with the columns the collapse reads; the other columns are
    missing. *)
Definition sample_episode (hesid : string) (epikey : Z) (admidate disdate : datecell)
    (admimeth diag : option string) : joined :=
  mkJoined
    (mkEpisode (Some hesid) (Some epikey) admidate disdate admimeth None diag
       None None None None None None None None)
    None.

(** Four episodes of one stay with diagnosis codes B, A, A, B. *)
Definition tied_diagnoses (admidate : datecell) : list joined :=
  [sample_episode "P1" 1 admidate (Stamp (Timestamp 2021 1 5)) None (Some "B");
   sample_episode "P1" 2 admidate (Stamp (Timestamp 2021 1 5)) None (Some "A");
   sample_episode "P1" 3 admidate (Stamp (Timestamp 2021 1 5)) None (Some "A");
   sample_episode "P1" 4 admidate (Stamp (Timestamp 2021 1 5)) None (Some "B")].

(** Two patients whose admission date is not recorded. *)
Definition two_open_spells : list joined :=
  [sample_episode "P1" 1 NaT (Stamp (Timestamp 2021 1 5)) None (Some "A");
   sample_episode "P2" 2 NaT (Stamp (Timestamp 2021 1 5)) None (Some "A")].

(** Stand-ins for the two pandas conversions the pipeline is parametric
    in: no text parses as a date, and a timestamp is written in binary
    with its sign (injective, and free of "|"). *)
Definition sample_parse_text (s : string) : option Z := None.

Fixpoint bits (p : positive) : string :=
  match p with
  | xH => "1"
  | xO q => String "0" (bits q)
  | xI q => String "1" (bits q)
  end.

Definition sample_timestamp_to_string (t : Z) : string :=
  match t with
  | Z0 => "0"
  | Zpos p => String "+" (bits p)
  | Zneg p => String "-" (bits p)
  end.

(** The scenario of the specification: three episodes of one stay, two of
    them under the same episode key, with diagnoses X, X, Y. *)
Definition scenario_stay : list joined :=
  [sample_episode "P1" 1 (Stamp (Timestamp 2021 1 1)) (Stamp (Timestamp 2021 1 5))
     (Some "21") (Some "X");
   sample_episode "P1" 1 (Stamp (Timestamp 2021 1 1)) (Stamp (Timestamp 2021 1 5))
     None (Some "X");
   sample_episode "P1" 2 (Stamp (Timestamp 2021 1 1)) (Stamp (Timestamp 2021 1 5))
     None (Some "Y")].

(** One stay per patient, admitted on 2021-01-01 and discharged the given
    number of days later. *)
Definition stay_of_days (hesid : string) (days : Z) : joined :=
  sample_episode hesid 1 (Stamp (Timestamp 2021 1 1))
    (Stamp (Timestamp 2021 1 1 + days * ns_per_day)) None None.

(** A lookup that lists the code E01 twice. *)
Definition duplicated_lookup : imd_frame :=
  mkImdFrame ["lsoa11_code"; "imd_decile"; "imd_quintile"]
    [mkImdRecord (Some "E01") None (Some 1);
     mkImdRecord (Some "E01") None (Some 2);
     mkImdRecord (Some "E02") None (Some 5)].

Definition episode_in (lsoa : option string) : episode :=
  mkEpisode (Some "P1") (Some 1) NaT NaT None None None None None None lsoa
    None None None None.

(** A directory with two yearly files, the second one empty, and a lookup
    file. *)
Definition two_year_directory : filesystem :=
  mkFilesystem
    (fun p => bool_decide (p = "data"))
    (fun pat => if bool_decide (pat = "data/*.csv")
                then ["data/2021.csv"; "data/2020.csv"] else [])
    (fun p => if bool_decide (p = "data/2020.csv")
              then Ok [episode_in (Some "E01"); episode_in (Some "E09")]
              else if bool_decide (p = "data/2021.csv") then Ok []
              else Raise FileNotFoundError)
    (fun p => if bool_decide (p = "imd.parquet") then Ok duplicated_lookup
              else Raise FileNotFoundError).

(** The same directory when the file of 2020 cannot be read. *)
Definition unreadable_directory : filesystem :=
  mkFilesystem (isdir two_year_directory) (glob two_year_directory)
    (fun p => if bool_decide (p = "data/2021.csv") then Ok []
              else Raise FileNotFoundError)
    (read_parquet two_year_directory).

(** * Properties *)

(** ** The IMD reshaper *)

Section ImdQuintile.
Import ProcessImd.

Lemma main_quintile (imd : list imd_row) (r : imd_out) :
  r ∈ main imd -> out_imd_quintile r = imd_quintile (out_imd_decile r).
Proof.
  unfold main. intros Hr. apply list_elem_of_fmap in Hr as (r0 & -> & _).
  reflexivity.
Qed.

Lemma decile_cases (d : Z) :
  1 <= d <= 10 ->
  d = 1 \/ d = 2 \/ d = 3 \/ d = 4 \/ d = 5 \/
  d = 6 \/ d = 7 \/ d = 8 \/ d = 9 \/ d = 10.
Proof. lia. Qed.

Lemma imd_quintile_mono (d d' : Z) :
  d <= d' -> imd_quintile d <= imd_quintile d'.
Proof.
  intros H. unfold imd_quintile.
  apply Z.add_le_mono_r, Z.div_le_mono; lia.
Qed.


End ImdQuintile.

(** ** The loader *)

Lemma sorted_Permutation (l : list string) : sorted l ≡ₚ l.
Proof. apply merge_sort_Permutation. Qed.

Lemma sorted_StronglySorted (l : list string) : StronglySorted String.le (sorted l).
Proof. apply StronglySorted_merge_sort; apply _. Qed.

Lemma sorted_length (l : list string) : length (sorted l) = length l.
Proof. by rewrite sorted_Permutation. Qed.

Lemma sorted_nil_inv (l : list string) : sorted l = [] -> l = [].
Proof.
  intros H. apply Permutation_nil_r. rewrite <- H. symmetry.
  apply sorted_Permutation.
Qed.

Lemma slice_from_0 {A} (l : list A) : slice_from (- 0) l = l.
Proof.
  unfold slice_from. change (- 0) with 0. change (0 <? 0) with false.
  cbv iota. rewrite Z.min_l by lia. reflexivity.
Qed.

Lemma slice_from_neg {A} (n : Z) (l : list A) :
  1 <= n -> slice_from (- n) l = drop (length l - Z.to_nat n) l.
Proof.
  intros Hn. unfold slice_from.
  destruct (Z.ltb_spec (- n) 0) as [_ | ?]; [| lia].
  f_equal. lia.
Qed.

(** X2: for a limit of at least one file the loader keeps the last
    [min n (number of files)] files of the sorted listing, each of them
    ordered after every file it leaves out. *)
Lemma list_year_csvs_last (globbed : list string) (n : Z) :
  1 <= n -> globbed <> [] ->
  exists dropped kept,
    sorted globbed = (dropped ++ kept)%list /\
    list_year_csvs globbed (Some n) = Ok kept /\
    length kept = Nat.min (Z.to_nat n) (length globbed) /\
    forall x y, x ∈ dropped -> y ∈ kept -> String.le x y.
Proof.
  intros Hn Hne.
  exists (take (length (sorted globbed) - Z.to_nat n) (sorted globbed)),
         (drop (length (sorted globbed) - Z.to_nat n) (sorted globbed)).
  split; [by rewrite take_drop |].
  split; [| split].
  - unfold list_year_csvs. rewrite slice_from_neg by done.
    destruct (drop _ _) eqn:Hd; [| done].
    apply drop_nil_inv in Hd. rewrite sorted_length in Hd.
    destruct globbed; [done | simpl in Hd; lia].
  - rewrite length_drop, sorted_length. lia.
  - intros x y Hx Hy.
    eapply StronglySorted_app_1_elem_of; [| exact Hx | exact Hy].
    rewrite take_drop. apply sorted_StronglySorted.
Qed.

(** The scenario of the specification: the last two of three yearly files. *)
Example list_year_csvs_last_two :
  list_year_csvs ["d/2019.csv"; "d/2021.csv"; "d/2020.csv"] (Some 2)
  = Ok ["d/2020.csv"; "d/2021.csv"].
Proof. reflexivity. Qed.

(** C7: with a limit of 0 the loader keeps all three files instead of the
    last 0 of them, and with a limit of -1 it keeps the last two instead of
    none: [files[-n_years:]] is the lexicographically last N files only for
    N >= 1. *)
Theorem list_year_csvs_limit_not_positive :
  list_year_csvs ["d/2019.csv"; "d/2020.csv"; "d/2021.csv"] (Some 0)
  = Ok ["d/2019.csv"; "d/2020.csv"; "d/2021.csv"] /\
  list_year_csvs ["d/2019.csv"; "d/2020.csv"; "d/2021.csv"] (Some (-1))
  = Ok ["d/2020.csv"; "d/2021.csv"].
Proof. split; reflexivity. Qed.

(** C9: with at least one matching file and [n_years = 0] the loader
    returns the whole sorted listing, which is not empty. *)
Theorem list_year_csvs_zero_keeps_all (globbed : list string) :
  globbed <> [] ->
  list_year_csvs globbed (Some 0) = Ok (sorted globbed) /\
  sorted globbed ≡ₚ globbed /\
  StronglySorted String.le (sorted globbed) /\
  sorted globbed <> [].
Proof.
  intros Hne.
  assert (sorted globbed <> []) as Hs by (intros H; by apply sorted_nil_inv in H).
  split; [| split; [apply sorted_Permutation | split; [apply sorted_StronglySorted | done]]].
  unfold list_year_csvs. rewrite slice_from_0.
  by destruct (sorted globbed).
Qed.

Lemma list_year_csvs_zero_keeps_all_witness :
  ["b.csv"; "a.csv"] <> [] /\
  list_year_csvs ["b.csv"; "a.csv"] (Some 0) = Ok ["a.csv"; "b.csv"].
Proof.
  split; [discriminate |].
  exact (proj1 (list_year_csvs_zero_keeps_all ["b.csv"; "a.csv"]
                  ltac:(discriminate))).
Defined.

Lemma list_year_csvs_nil (n_years : option Z) :
  list_year_csvs [] n_years = Raise FileNotFoundError.
Proof.
  unfold list_year_csvs. change (sorted []) with (@nil string).
  destruct n_years as [n |]; [| reflexivity].
  unfold slice_from. by rewrite drop_nil.
Qed.

Lemma load_df_no_csv (fs : filesystem) (inp : string) (n_years : option Z) :
  isdir fs inp = true ->
  glob fs (path_join inp "*.csv") = [] ->
  load_df fs inp n_years = ([], Raise FileNotFoundError).
Proof.
  intros Hdir Hglob. unfold load_df. rewrite Hdir, Hglob, list_year_csvs_nil.
  reflexivity.
Qed.

(** C8: when the input is a directory in which the pattern matches no
    file, [load_df] and the whole run raise [FileNotFoundError] with an
    empty event list: no CSV and no parquet is read, nothing is written. *)
Theorem no_csv_raises_before_reading
    (parse_text : string -> option Z) (timestamp_to_string : Z -> string)
    (fs : filesystem) (inp imd_parquet outp : string) (n_years : option Z) :
  isdir fs inp = true ->
  glob fs (path_join inp "*.csv") = [] ->
  load_df fs inp n_years = ([], Raise FileNotFoundError) /\
  main parse_text timestamp_to_string fs inp imd_parquet outp n_years
  = ([], Raise FileNotFoundError).
Proof.
  intros Hdir Hglob. split; [by apply load_df_no_csv |].
  unfold main. rewrite load_df_no_csv by done. reflexivity.
Qed.

Lemma no_csv_raises_before_reading_witness :
  main (fun _ => None) (fun _ => "") empty_directory "data" "imd.parquet"
    "out/spells.parquet" (Some 3)
  = ([], Raise FileNotFoundError).
Proof.
  exact (proj2 (no_csv_raises_before_reading (fun _ => None) (fun _ => "")
                  empty_directory "data" "imd.parquet" "out/spells.parquet"
                  (Some 3) eq_refl eq_refl)).
Defined.

(** ** Joins and deduplication *)

Section Joins.
Context {L R C : Type}.

Lemma filter_none {A} (P : A -> Prop) `{!forall x, Decision (P x)} (l : list A) :
  (forall x, x ∈ l -> ~ P x) -> filter P l = [].
Proof.
  induction l as [| a l IH]; intros Hno; [done |].
  rewrite filter_cons_False by (apply Hno; left).
  apply IH. intros x Hx. apply Hno. by right.
Qed.

(** Under a key without duplicates a predicate that fixes the key selects
    at most one row. *)
Lemma filter_unique_key {A K} (key : A -> K) (P : A -> Prop)
    `{!forall x, Decision (P x)} (k : K) (l : list A) :
  NoDup (map key l) -> (forall x, P x -> key x = k) ->
  (length (filter P l) <= 1)%nat.
Proof.
  intros Hnd HP. induction l as [| a l IH]; [simpl; lia |].
  simpl in Hnd. apply NoDup_cons in Hnd as [Ha Hnd].
  destruct (decide (P a)) as [Hpa | Hpa].
  - rewrite filter_cons_True by done.
    rewrite filter_none; [simpl; lia |].
    intros x Hx Hpx. apply Ha.
    rewrite (HP a Hpa), <- (HP x Hpx).
    apply list_elem_of_fmap. by exists x.
  - rewrite filter_cons_False by done. by apply IH.
Qed.

(** A left join against a right side with at most one match per left row
    yields one row per left row, in order. *)
Lemma left_join_functional (on : L -> R -> bool) (mk : L -> option R -> C)
    (left : list L) (right : list R) :
  (forall l, l ∈ left ->
     (length (filter (fun r => on l r = true) right) <= 1)%nat) ->
  left_join on mk left right
  = map (fun l => mk l (head (filter (fun r => on l r = true) right))) left.
Proof.
  unfold left_join.
  induction left as [| l left IH]; intros H; [done |].
  cbn [flat_map]. rewrite IH by (intros; apply H; by right).
  rewrite map_cons. cbn beta.
  specialize (H l ltac:(left)).
  destruct (filter _ right) as [| m [| m' ms]]; simpl in *; [done | done | lia].
Qed.

End Joins.

Section DropDuplicates.
Context {A K : Type} `{EqDecision K} (key : A -> K).

Lemma drop_duplicates_from_elem (seen : list K) (l : list A) (x : A) :
  x ∈ drop_duplicates_from key seen l -> x ∈ l /\ key x ∉ seen.
Proof.
  revert seen. induction l as [| a l IH]; intros seen; simpl.
  - by intros ?%elem_of_nil.
  - destruct (decide (key a ∈ seen)) as [Hin | Hout].
    + intros [? ?]%IH. split; [by right | done].
    + intros [-> | [? Hs]%IH]%elem_of_cons; [split; [by left | done] |].
      split; [by right |]. intros ?. apply Hs. by right.
Qed.

Lemma drop_duplicates_from_NoDup (seen : list K) (l : list A) :
  NoDup (map key (drop_duplicates_from key seen l)).
Proof.
  revert seen. induction l as [| a l IH]; intros seen; simpl; [constructor |].
  destruct (decide (key a ∈ seen)); [apply IH |].
  simpl. apply NoDup_cons. split; [| apply IH].
  intros (x & Hk & Hx)%list_elem_of_fmap.
  apply drop_duplicates_from_elem in Hx as [_ Hx].
  apply Hx. rewrite Hk. by left.
Qed.

Lemma drop_duplicates_elem (l : list A) (x : A) :
  x ∈ drop_duplicates key l -> x ∈ l.
Proof. intros H. by apply drop_duplicates_from_elem in H as [? _]. Qed.

Lemma drop_duplicates_NoDup (l : list A) :
  NoDup (map key (drop_duplicates key l)).
Proof. apply drop_duplicates_from_NoDup. Qed.

End DropDuplicates.

(** ** The deprivation join *)

Lemma merge_left_deduplicated (df : list episode)
    (lookup : list (option string * option Z)) :
  merge_left LSOA11 fst (fun e m => mkJoined e (m ≫= snd)) df
    (drop_duplicates fst lookup)
  = map (attach_row (drop_duplicates fst lookup)) df.
Proof.
  unfold merge_left. rewrite left_join_functional; [done |].
  intros e _. apply (filter_unique_key fst _ (LSOA11 e)).
  - apply drop_duplicates_NoDup.
  - by intros r ->%bool_decide_eq_true.
Qed.

Lemma attach_imd_frame_Ok (df : list episode) (imd : imd_frame) (out : list joined) :
  attach_imd_frame df imd = Ok out ->
  exists lookup,
    map fst lookup = lookup_codes imd /\
    out = map (attach_row (drop_duplicates fst lookup)) df.
Proof.
  unfold attach_imd_frame, lookup_codes.
  destruct (negb _); [done |]. destruct (_ && _); [done |].
  intros [= <-]. eexists. split; [| apply merge_left_deduplicated].
  rewrite <- list_fmap_compose. by destruct (bool_decide _).
Qed.

Lemma attach_imd_frame_Raise (df df' : list episode) (imd : imd_frame) (e : exn) :
  attach_imd_frame df imd = Raise e -> attach_imd_frame df' imd = Raise e.
Proof.
  unfold attach_imd_frame.
  destruct (negb _); [done |]. by destruct (_ && _).
Qed.

Lemma rename_column_elem (old new c : string) (cols : list string) :
  c ∈ rename_column old new cols <->
  (c = new /\ old ∈ cols) \/ (c <> old /\ c ∈ cols).
Proof.
  unfold rename_column. rewrite list_elem_of_fmap. split.
  - intros (c0 & -> & Hc0). case_bool_decide; subst; eauto.
  - intros [[-> Hold] | [Hne Hc]].
    + exists old. by rewrite bool_decide_eq_true_2.
    + exists c. by rewrite bool_decide_eq_false_2.
Qed.

(** A lookup that has the quintile column and the code column under
    exactly one of its two names is accepted, whatever the episodes. *)
Lemma attach_imd_frame_returns (df : list episode) (imd : imd_frame) :
  "imd_quintile" ∈ imd_columns imd ->
  ("lsoa11_code" ∈ imd_columns imd /\ ~ "LSOA11" ∈ imd_columns imd) \/
  (~ "lsoa11_code" ∈ imd_columns imd /\ "LSOA11" ∈ imd_columns imd) ->
  exists out, attach_imd_frame df imd = Ok out.
Proof.
  intros Hq Hcode. unfold attach_imd_frame.
  destruct Hcode as [[Hold Hnew] | [Hold Hnew]].
  - rewrite (bool_decide_eq_true_2 _ Hold), (bool_decide_eq_false_2 _ Hnew).
    rewrite !bool_decide_eq_true_2; [simpl; eauto | |];
      apply rename_column_elem; [right | left]; done.
  - rewrite (bool_decide_eq_false_2 _ Hold).
    rewrite !bool_decide_eq_true_2 by done. simpl. eauto.
Qed.

(** A lookup without the quintile column is refused. *)
Example attach_imd_frame_KeyError :
  attach_imd_frame [episode_in (Some "E01")]
    (mkImdFrame ["lsoa11_code"; "imd_decile"] [mkImdRecord (Some "E01") None None])
  = Raise KeyError.
Proof. reflexivity. Qed.


(** ** The SQL fragment *)

Lemma sql_eq_true {V} `{EqDecision V} (x y : option V) :
  sql_eq x y = Some true <-> exists v, x = Some v /\ y = Some v.
Proof.
  split.
  - destruct x as [a |], y as [b |]; simpl; try done.
    case_bool_decide; [| done]. intros _. exists a. by subst.
  - intros (v & -> & ->). simpl. by rewrite bool_decide_eq_true_2.
Qed.

Lemma sql_and_true (a b : option bool) :
  sql_and a b = Some true <-> a = Some true /\ b = Some true.
Proof. destruct a as [[] |], b as [[] |]; simpl; intuition congruence. Qed.

Lemma on_key_true (b d : spell_key) :
  on_key b d = true <-> b = d /\ complete b.
Proof.
  unfold on_key, sql_holds. rewrite bool_decide_eq_true, !sql_and_true, !sql_eq_true.
  destruct b as [[p a] x], d as [[p' a'] x']. unfold complete, is_Some. simpl.
  split.
  - intros [[(v1 & -> & ->) (v2 & -> & ->)] (v3 & -> & ->)]. eauto 10.
  - intros [[= <- <- <-] ([v1 ->] & [v2 ->] & [v3 ->])]. eauto 10.
Qed.

Lemma on_key_incomplete (b d : spell_key) : ~ complete b -> on_key b d = false.
Proof.
  intros Hb. destruct (on_key b d) eqn:Heq; [| done].
  apply on_key_true in Heq as [_ ?]. done.
Qed.

#[global] Instance mode_order_trans : Transitive mode_order.
Proof.
  intros x y z [Hxy | [Hxy Hxy']] [Hyz | [Hyz Hyz']]; unfold mode_order.
  - left. lia.
  - left. lia.
  - left. lia.
  - right. split; [lia |]. by transitivity (c_v y).
Qed.

#[global] Instance mode_order_total : Total mode_order.
Proof.
  intros x y. unfold mode_order.
  destruct (Z.lt_trichotomy (c_cnt x) (c_cnt y)) as [? | [Heq | ?]];
    [right; by left | | left; by left].
  destruct (total String.le (c_v x) (c_v y)); [left | right]; right; by split.
Qed.

Section SortHead.
Context {A : Type} (R : relation A) `{!RelDecision R, !Transitive R, !Total R}.

Lemma head_merge_sort_None (l : list A) :
  head (merge_sort R l) = None -> l = [].
Proof.
  intros H%head_None. apply Permutation_nil_r.
  rewrite <- H. symmetry. apply merge_sort_Permutation.
Qed.

(** The first row of an ORDER BY is in the input and is ordered before
    every row of the input. *)
Lemma head_merge_sort_Some (l : list A) (x : A) :
  head (merge_sort R l) = Some x -> x ∈ l /\ forall y, y ∈ l -> R x y.
Proof.
  intros H.
  pose proof (StronglySorted_merge_sort R l) as Hs.
  pose proof (merge_sort_Permutation R l) as Hp.
  destruct (merge_sort R l) as [| x' rest]; [done |].
  injection H as ->. split.
  - rewrite <- Hp. by left.
  - intros y Hy. rewrite <- Hp in Hy.
    apply elem_of_cons in Hy as [-> | Hy].
    + by destruct (total R x x).
    + apply StronglySorted_inv in Hs as [_ Hall].
      by eapply Forall_forall in Hall.
Qed.

End SortHead.

Lemma omap_cons_eq {A B} (f : A -> option B) (a : A) (l : list A) :
  omap f (a :: l) = match f a with Some y => y :: omap f l | None => omap f l end.
Proof. reflexivity. Qed.

Lemma omap_keyed_fst_elem {K V} (f : K -> option (K * V)) (l : list K) (k : K) :
  (forall k kv, f k = Some kv -> kv.1 = k) ->
  k ∈ map fst (omap f l) -> k ∈ l.
Proof.
  intros Hf (kv & -> & (k' & Hk' & Hfk)%list_elem_of_omap)%list_elem_of_fmap.
  by rewrite (Hf _ _ Hfk).
Qed.

Lemma omap_keyed_NoDup {K V} (f : K -> option (K * V)) (l : list K) :
  (forall k kv, f k = Some kv -> kv.1 = k) ->
  NoDup l -> NoDup (map fst (omap f l)).
Proof.
  intros Hf. induction 1 as [| k l Hk Hnd IH]; simpl; [constructor |].
  destruct (f k) as [kv |] eqn:Hfk; [| done].
  simpl. apply NoDup_cons. split; [| done].
  rewrite (Hf _ _ Hfk). intros Hin. apply Hk.
  by eapply omap_keyed_fst_elem.
Qed.

Lemma head_filter_omap_keyed {K V} `{EqDecision K} (f : K -> option (K * V))
    (l : list K) (k : K) :
  (forall k kv, f k = Some kv -> kv.1 = k) ->
  head (filter (fun m => m.1 = k) (omap f l)) = if decide (k ∈ l) then f k else None.
Proof.
  intros Hf. induction l as [| a l IH].
  - simpl. destruct (decide (k ∈ [])) as [?%elem_of_nil |]; done.
  - rewrite omap_cons_eq. destruct (f a) as [kv |] eqn:Hfa.
    + destruct (decide (kv.1 = k)) as [Heq | Hne].
      * rewrite filter_cons_True by done. simpl.
        rewrite (Hf _ _ Hfa) in Heq. subst a.
        rewrite decide_True by (by left). done.
      * rewrite filter_cons_False by done. rewrite IH.
        rewrite (Hf _ _ Hfa) in Hne.
        destruct (decide (k ∈ l)), (decide (k ∈ a :: l)) as [Hin | Hout]; try done.
        -- exfalso. apply Hout. by right.
        -- apply elem_of_cons in Hin as [-> | ?]; done.
    + rewrite IH.
      destruct (decide (k ∈ l)), (decide (k ∈ a :: l)) as [Hin | Hout]; try done.
      * exfalso. apply Hout. by right.
      * apply elem_of_cons in Hin as [-> | ?]; done.
Qed.

Lemma mode_row_key (cs : list count_row) (k : spell_key) (kv : spell_key * string) :
  mode_row cs k = Some kv -> kv.1 = k.
Proof.
  unfold mode_row. destruct (head _); simpl; [| done]. by intros [= <-].
Qed.

Lemma mode_keys_NoDup (cs : list count_row) : NoDup (map fst (mode cs)).
Proof.
  apply (omap_keyed_NoDup (mode_row cs)).
  - apply mode_row_key.
  - apply NoDup_remove_dups.
Qed.

Lemma mode_join_unique (cs : list count_row) (k : spell_key) :
  (length (filter (fun m => on_key k m.1 = true) (mode cs)) <= 1)%nat.
Proof.
  apply (filter_unique_key fst _ k); [apply mode_keys_NoDup |].
  by intros m [-> _]%on_key_true.
Qed.

Lemma mode_at_incomplete (ms : list (spell_key * string)) (k : spell_key) :
  ~ complete k -> mode_at ms k = None.
Proof.
  intros Hk. unfold mode_at. rewrite filter_none; [done |].
  intros m _. by rewrite on_key_incomplete.
Qed.

Lemma mode_at_complete (cs : list count_row) (k : spell_key) :
  complete k ->
  mode_at (mode cs) k
  = c_v <$> head (merge_sort mode_order (group_rows c_key k cs)).
Proof.
  intros Hk. unfold mode_at.
  rewrite (list_filter_iff _ (fun m => m.1 = k)).
  2: { intros m. rewrite on_key_true. split; [by intros [-> _] | by intros <-]. }
  unfold mode. rewrite (head_filter_omap_keyed (mode_row cs)) by apply mode_row_key.
  destruct (decide (k ∈ group_keys c_key cs)) as [Hin | Hout].
  - unfold mode_row. by destruct (head _).
  - assert (group_rows c_key k cs = []) as ->; [| done].
    apply filter_none. intros r Hr Hkey. apply Hout.
    unfold group_keys. rewrite elem_of_remove_dups.
    apply list_elem_of_fmap. by exists r.
Qed.

(** The query returns exactly one row per group. *)
Lemma collapse_eq (episodes : list cleaned) :
  collapse episodes = map (spell_of episodes) (group_keys key_of episodes).
Proof.
  unfold collapse, base.
  rewrite !left_join_functional.
  - rewrite !map_map. reflexivity.
  - intros b _. apply mode_join_unique.
  - intros b _. apply mode_join_unique.
  - intros b _. apply mode_join_unique.
Qed.

(** ** Date repair *)

Example CUTOFF_value : CUTOFF = -2208988800 * 1000000000.
Proof. reflexivity. Qed.

Lemma null_before_cutoff_repaired (t : option Z) :
  date_repaired t (null_before_cutoff t).
Proof.
  destruct t as [t |]; simpl; [| done].
  destruct (Z.ltb_spec t CUTOFF); split; intros; try done; lia.
Qed.

Lemma null_non_positive_Some (l : Z) :
  null_non_positive (Some l) = if 0 <? l then Some l else None.
Proof.
  simpl. destruct (Z.leb_spec l 0), (Z.ltb_spec 0 l); try done; lia.
Qed.


(** ** Groups *)

Lemma group_keys_elem {A K} `{EqDecision K} (key : A -> K) (l : list A) (k : K) :
  k ∈ group_keys key l <-> exists x, x ∈ l /\ key x = k.
Proof.
  unfold group_keys. rewrite elem_of_remove_dups, list_elem_of_fmap.
  split; intros (x & ? & ?); by exists x.
Qed.

Lemma group_rows_elem {A K} `{EqDecision K} (key : A -> K) (l : list A) (k : K) (x : A) :
  x ∈ group_rows key k l <-> key x = k /\ x ∈ l.
Proof. unfold group_rows. by rewrite list_elem_of_filter. Qed.

Lemma omap_id_map {A B} (f : A -> option B) (l : list A) :
  omap id (map f l) = omap f l.
Proof.
  induction l as [| a l IH]; [done |].
  rewrite map_cons, !omap_cons_eq, IH. reflexivity.
Qed.

Lemma bool_or_all_false (l : list (option bool)) :
  l <> [] -> (forall x, x ∈ l -> x = Some false) -> bool_or l = Some false.
Proof.
  induction l as [| x l IH]; [done |]. intros _ Hall. simpl.
  rewrite (Hall x) by left.
  destruct l as [| y l]; [done |].
  fold (bool_or (y :: l)). rewrite IH; [done | done |].
  intros z Hz. apply Hall. by right.
Qed.

Lemma los_ok_days_plus_one (a d : option Z) :
  los_ok (days_plus_one a d) = true <->
  match a, d with
  | Some a, Some d => 1 <= (d - a) / ns_per_day + 1 <= 730
  | _, _ => True
  end.
Proof.
  destruct a as [a |], d as [d |]; simpl; try done.
  rewrite andb_true_iff, !Z.leb_le. lia.
Qed.

(** ** Counting and the mode *)

Section Counts.
Variable col : cleaned -> option string.

Lemma selected_count (episodes : list cleaned) (k : spell_key) (v : string) :
  length (group_rows id (k, v)
            (omap (fun e => (fun v => (key_of e, v)) <$> col e) episodes))
  = length (filter (fun w => w = v) (group_values col episodes k)).
Proof.
  unfold group_values, group_rows.
  induction episodes as [| e episodes IH]; [done |].
  rewrite omap_cons_eq, (filter_cons _ e).
  destruct (col e) as [w |] eqn:Hcol; cbn [fmap option_fmap option_map];
    destruct (decide (key_of e = k)) as [Hk | Hk];
    rewrite ?omap_cons_eq, ?Hcol, ?filter_cons; try exact IH.
  - destruct (decide (w = v)) as [-> | Hw].
    + rewrite decide_True by (unfold id; by rewrite Hk).
      cbn [length]. f_equal. exact IH.
    + rewrite decide_False by (unfold id; congruence). exact IH.
  - rewrite decide_False by (unfold id; congruence). exact IH.
Qed.

Lemma counts_elem (episodes : list cleaned) (r : count_row) :
  r ∈ counts col episodes <->
  c_v r ∈ group_values col episodes (c_key r) /\
  c_cnt r = occurrences (c_v r) (group_values col episodes (c_key r)).
Proof.
  unfold counts, occurrences. rewrite list_elem_of_fmap. split.
  - intros ([k v] & -> & (e & He & Hsel)%group_keys_elem). simpl.
    rewrite selected_count.
    split; [| done].
    apply list_elem_of_omap in He as (c & Hc & Hcv).
    destruct (col c) as [w |] eqn:Hcol; simplify_eq/=.
    unfold group_values. apply list_elem_of_omap. exists c.
    split; [by apply group_rows_elem | done].
  - destruct r as [k v n]. simpl. intros [Hv ->].
    exists (k, v). simpl. rewrite selected_count. split; [done |].
    apply group_keys_elem. exists (k, v). split; [| done].
    unfold group_values in Hv.
    apply list_elem_of_omap in Hv as (c & [Hk Hc]%group_rows_elem & Hcv).
    apply list_elem_of_omap. exists c. split; [done |].
    by rewrite Hcv, Hk.
Qed.

(** On a group with a complete key the joined value is the mode of the
    group's non-null values, ties going to the smallest value. *)
Lemma mode_at_is_mode_lex (episodes : list cleaned) (k : spell_key) :
  complete k ->
  is_mode_lex (group_values col episodes k)
    (mode_at (mode (counts col episodes)) k).
Proof.
  intros Hk. rewrite mode_at_complete by done.
  destruct (head _) as [x |] eqn:Hhead; simpl.
  - apply head_merge_sort_Some in Hhead as [[Hxk Hx]%group_rows_elem Hmin];
      [| apply _ ..].
    apply counts_elem in Hx as [Hxv Hxc]. rewrite Hxk in Hxv, Hxc.
    split; [done |]. intros w Hw.
    set (y := mkCountRow k w (occurrences w (group_values col episodes k))).
    assert (y ∈ group_rows c_key k (counts col episodes)) as Hy.
    { apply group_rows_elem. split; [done |]. by apply counts_elem. }
    destruct (Hmin y Hy) as [Hlt | [Heq Hle]]; simpl in *; rewrite <- Hxc.
    + split; lia.
    + split; [lia | done].
  - apply head_merge_sort_None in Hhead.
    destruct (group_values col episodes k) as [| w vals] eqn:Hvals; [done |].
    set (y := mkCountRow k w (occurrences w (group_values col episodes k))).
    assert (y ∈ group_rows c_key k (counts col episodes)) as Hy.
    { apply group_rows_elem. split; [done |]. apply counts_elem. simpl.
      split; [| done]. rewrite Hvals. by left. }
    rewrite Hhead in Hy. by apply elem_of_nil in Hy.
Qed.

End Counts.

(** ** Strings with a delimiter *)

Lemma append_assoc (s t u : string) : ((s ++ t) ++ u = s ++ (t ++ u))%string.
Proof.
  induction s as [| c s IH]; [done |].
  change (String c ((s ++ t) ++ u) = String c (s ++ (t ++ u)))%string.
  by rewrite IH.
Qed.

Lemma bar_free_append_bar (s t : string) :
  bar_free (s ++ String "|" t) = false.
Proof.
  induction s as [| c s IH]; simpl; [done |].
  rewrite IH. apply andb_false_r.
Qed.

(** A string splits in one way only at its last "|". *)
Lemma append_bar_inj (s1 s2 t1 t2 : string) :
  bar_free t1 = true -> bar_free t2 = true ->
  (s1 ++ String "|" t1 = s2 ++ String "|" t2)%string ->
  s1 = s2 /\ t1 = t2.
Proof.
  intros Ht1 Ht2. revert s2.
  induction s1 as [| c s1 IH]; intros [| c' s2]; simpl.
  - by intros [= ->].
  - intros [= _ Heq]. by rewrite Heq, bar_free_append_bar in Ht1.
  - intros [= _ Heq]. by rewrite <- Heq, bar_free_append_bar in Ht2.
  - intros [= -> Heq]. by destruct (IH s2 Heq) as [-> ->].
Qed.

Lemma NoDup_omap {A B} (f : A -> option B) (l : list A) :
  NoDup l ->
  (forall x y z, x ∈ l -> y ∈ l -> f x = Some z -> f y = Some z -> x = y) ->
  NoDup (omap f l).
Proof.
  induction 1 as [| a l Ha Hnd IH]; intros Hinj; [constructor |].
  rewrite omap_cons_eq.
  assert (NoDup (omap f l)) as Hrest.
  { apply IH. intros x y z Hx Hy. apply Hinj; by right. }
  destruct (f a) as [b |] eqn:Hfa; [| done].
  apply NoDup_cons. split; [| done].
  intros (x & Hx & Hfx)%list_elem_of_omap. apply Ha.
  rewrite (Hinj a x b); [done | by left | by right | done | done].
Qed.

(** ** The collapse *)

Section Collapse.
Variable parse_text : string -> option Z.
Variable timestamp_to_string : Z -> string.

Local Abbreviation out_of df := (clean_and_collapse parse_text timestamp_to_string df).
Local Abbreviation cleaned_of df := (map (clean parse_text) df).

Lemma spell_key_of_recompute_los (r : spell_row) :
  spell_key_of (recompute_los r) = spell_key_of r.
Proof. reflexivity. Qed.

Lemma spell_key_of_spell_of (episodes : list cleaned) (k : spell_key) :
  spell_key_of (spell_of episodes k) = k.
Proof. by destruct k as [[? ?] ?]. Qed.

(** Every returned row is the row of one group, with the length of stay
    recomputed, an acceptable length of stay, and its [spell_id]. *)
Lemma clean_and_collapse_elem (df : list joined) (s : spell) :
  s ∈ out_of df <->
  exists k,
    k ∈ group_keys key_of (cleaned_of df) /\
    row s = recompute_los (spell_of (cleaned_of df) k) /\
    los_ok (days_plus_one k.1.2 k.2) = true /\
    spell_id s = make_spell_id timestamp_to_string (row s).
Proof.
  unfold clean_and_collapse. rewrite collapse_eq. split.
  - intros (r & -> & [Hok (r0 & -> & (k & -> & Hk)%list_elem_of_fmap)%list_elem_of_fmap]
                       %list_elem_of_filter)%list_elem_of_fmap.
    exists k. simpl. split; [done |]. split; [done |]. split; [| done].
    by destruct k as [[? ?] ?].
  - intros (k & Hk & Hrow & Hok & Hid).
    apply list_elem_of_fmap. exists (row s). split.
    + destruct s as [r i]. simpl in *. by rewrite Hid.
    + apply list_elem_of_filter. split.
      * rewrite Hrow. by destruct k as [[? ?] ?].
      * rewrite Hrow. apply list_elem_of_fmap. eexists. split; [done |].
        apply list_elem_of_fmap. by exists k.
Qed.

Lemma clean_and_collapse_key (df : list joined) (s : spell) (k : spell_key) :
  row s = recompute_los (spell_of (cleaned_of df) k) ->
  spell_key_of (row s) = k.
Proof.
  intros ->. by rewrite spell_key_of_recompute_los, spell_key_of_spell_of.
Qed.

(** C10: a returned spell all of whose episodes have a missing
    admission-method code has [any_emerg] false, not missing. *)
Theorem any_emerg_false_without_admimeth (df : list joined) (s : spell) :
  s ∈ out_of df ->
  (forall j, j ∈ df -> key_of (clean parse_text j) = spell_key_of (row s) ->
     ADMIMETH (ep j) = None) ->
  any_emerg (row s) = Some false.
Proof.
  intros (k & Hk & Hrow & _ & _)%clean_and_collapse_elem Hmiss.
  pose proof (clean_and_collapse_key df s k Hrow) as Hkey.
  rewrite Hrow. simpl.
  apply group_keys_elem in Hk as (c & Hc & Hck).
  apply bool_or_all_false.
  - intros Hnil%fmap_nil_inv.
    assert (c ∈ group_rows key_of k (cleaned_of df)) as Hin
      by (by apply group_rows_elem).
    rewrite Hnil in Hin. by apply elem_of_nil in Hin.
  - intros x (e & -> & [Hek (j & -> & Hj)%list_elem_of_fmap]%group_rows_elem)
               %list_elem_of_fmap.
    simpl. rewrite (Hmiss j Hj) by congruence. reflexivity.
Qed.

(** C2: every returned spell with both dates has
    [los_days = (dis - adm).days + 1], between 1 and 730, and one with a
    missing date has a missing [los_days]; and the spell of an episode's
    group is returned exactly when that recomputed value is missing or
    between 1 and 730, whatever the per-episode maximum was. *)
Theorem los_recomputed_then_filtered (df : list joined) :
  (forall s, s ∈ out_of df ->
     (forall a d, adm (row s) = Some a -> dis (row s) = Some d ->
        los_days (row s) = Some ((d - a) / ns_per_day + 1) /\
        1 <= (d - a) / ns_per_day + 1 <= 730) /\
     (adm (row s) = None \/ dis (row s) = None -> los_days (row s) = None)) /\
  (forall j, j ∈ df ->
     (exists s, s ∈ out_of df /\
                spell_key_of (row s) = key_of (clean parse_text j)) <->
     match ep_adm (clean parse_text j), ep_dis (clean parse_text j) with
     | Some a, Some d => 1 <= (d - a) / ns_per_day + 1 <= 730
     | _, _ => True
     end).
Proof.
  split.
  - intros s (k & _ & Hrow & Hok%los_ok_days_plus_one & _)%clean_and_collapse_elem.
    rewrite Hrow. destruct k as [[p a] d]. simpl in *. split.
    + by intros a' d' -> ->.
    + intros [-> | ->]; [done |]. by destruct a.
  - intros j Hj. rewrite <- (los_ok_days_plus_one (ep_adm _) (ep_dis _)). split.
    + intros (s & (k & _ & Hrow & Hok & _)%clean_and_collapse_elem & Hkey).
      rewrite (clean_and_collapse_key df s k Hrow) in Hkey. by subst k.
    + intros Hlos.
      set (k := key_of (clean parse_text j)).
      set (r := recompute_los (spell_of (cleaned_of df) k)).
      exists (mkSpell r (make_spell_id timestamp_to_string r)).
      split; [| by apply (clean_and_collapse_key df _ k)].
      apply clean_and_collapse_elem. exists k.
      split; [apply group_keys_elem; exists (clean parse_text j); split;
              [apply list_elem_of_fmap; by exists j | done] |].
      by repeat split.
Qed.


(** On a returned spell with a missing key component the three LEFT
    JOINs find no row, and the categorical fields are missing. *)
Lemma categorical_fields_incomplete_key (df : list joined) (s : spell) :
  s ∈ out_of df -> ~ complete (spell_key_of (row s)) ->
  primary_diag (row s) = None /\ ethnicity (row s) = None /\ sex (row s) = None.
Proof.
  intros (k & _ & Hrow & _ & _)%clean_and_collapse_elem.
  rewrite (clean_and_collapse_key df s k Hrow). intros Hk.
  rewrite Hrow. simpl. repeat split; by apply mode_at_incomplete.
Qed.

(** C1: the four episodes with diagnoses B, A, A, B collapse to one spell,
    with [primary_diag = "A"] when the stay has both dates; when its
    admission date is missing the spell is still returned, but its
    [primary_diag] is missing instead of "A". *)
Theorem primary_diag_lost_without_admission_date :
  map (fun s => primary_diag (row s))
    (out_of (tied_diagnoses (Stamp (Timestamp 2021 1 1)))) = [Some "A"] /\
  map (fun s => primary_diag (row s)) (out_of (tied_diagnoses NaT)) = [None] /\
  group_values (fun e => DIAG_4_01 (ep (src e))) (cleaned_of (tied_diagnoses NaT))
    (Some "P1", None, Some (Timestamp 2021 1 5)) = ["B"; "A"; "A"; "B"].
Proof. repeat split; vm_compute; reflexivity. Qed.

Lemma clean_and_collapse_keys (df : list joined) :
  map (fun s => spell_key_of (row s)) (out_of df)
  = filter (fun k => los_ok (days_plus_one k.1.2 k.2) = true)
      (group_keys key_of (cleaned_of df)).
Proof.
  unfold clean_and_collapse. rewrite collapse_eq.
  induction (group_keys key_of (cleaned_of df)) as [| k keys IH]; [done |].
  rewrite !map_cons, !filter_cons.
  assert (los_days (recompute_los (spell_of (cleaned_of df) k))
          = days_plus_one k.1.2 k.2) as -> by (by destruct k as [[? ?] ?]).
  destruct (decide (los_ok (days_plus_one k.1.2 k.2) = true)); [| exact IH].
  rewrite !map_cons. f_equal; [| exact IH].
  by destruct k as [[? ?] ?].
Qed.

(** The keys of the returned spells are pairwise distinct. *)
Lemma clean_and_collapse_keys_NoDup (df : list joined) :
  NoDup (map (fun s => spell_key_of (row s)) (out_of df)).
Proof.
  rewrite clean_and_collapse_keys. apply NoDup_filter, NoDup_remove_dups.
Qed.

(** X4: the returned spells have pairwise distinct keys, each is the spell
    of at least one episode, and its [n_episodes] is the number of
    distinct non-null episode keys among the episodes of its group. *)
Theorem one_spell_per_group (df : list joined) :
  NoDup (map (fun s => spell_key_of (row s)) (out_of df)) /\
  forall s, s ∈ out_of df ->
    (exists j, j ∈ df /\ key_of (clean parse_text j) = spell_key_of (row s)) /\
    n_episodes (row s)
    = Z.of_nat (length (remove_dups
        (omap (fun e => EPIKEY (ep (src e)))
           (group_rows key_of (spell_key_of (row s)) (cleaned_of df))))).
Proof.
  split; [apply clean_and_collapse_keys_NoDup |].
  intros s (k & Hk & Hrow & _ & _)%clean_and_collapse_elem.
  rewrite (clean_and_collapse_key df s k Hrow). split.
  - apply group_keys_elem in Hk as (c & (j & -> & Hj)%list_elem_of_fmap & Hck).
    by exists j.
  - rewrite Hrow. simpl. unfold count_distinct.
    by rewrite omap_id_map.
Qed.

(** A returned spell is determined by its key. *)
Lemma clean_and_collapse_key_inj (df : list joined) (s1 s2 : spell) :
  s1 ∈ out_of df -> s2 ∈ out_of df ->
  spell_key_of (row s1) = spell_key_of (row s2) -> s1 = s2.
Proof.
  intros (k1 & _ & Hrow1 & _ & Hid1)%clean_and_collapse_elem
         (k2 & _ & Hrow2 & _ & Hid2)%clean_and_collapse_elem Hkey.
  rewrite (clean_and_collapse_key df s1 k1 Hrow1) in Hkey.
  rewrite (clean_and_collapse_key df s2 k2 Hrow2) in Hkey. subst k2.
  destruct s1 as [r1 i1], s2 as [r2 i2]. simpl in *. congruence.
Qed.

(** [spell_id] is the three key components joined with "|" when all
    three are present, and missing as soon as one of them is. *)
Lemma make_spell_id_complete (r : spell_row) (p : string) (a d : Z) :
  spell_key_of r = (Some p, Some a, Some d) ->
  make_spell_id timestamp_to_string r
  = Some ((((p ++ "|") ++ timestamp_to_string a) ++ "|")
            ++ timestamp_to_string d)%string.
Proof. unfold spell_key_of, make_spell_id. by intros [= -> -> ->]. Qed.

Lemma make_spell_id_incomplete (r : spell_row) :
  ~ complete (spell_key_of r) -> make_spell_id timestamp_to_string r = None.
Proof.
  unfold spell_key_of, make_spell_id, complete. simpl.
  destruct (sp_PSEUDO_HESID r), (adm r), (dis r); simpl; try done.
  intros H. exfalso. apply H. eauto.
Qed.

(** C4: two patients with a missing admission date give two spells, one
    per patient, and both have a missing [spell_id]: the identifier is
    neither the concatenation of the key nor unique on these rows. *)
Theorem spell_id_missing_without_admission_date :
  map (fun s => sp_PSEUDO_HESID (row s)) (out_of two_open_spells)
  ≡ₚ [Some "P1"; Some "P2"] /\
  Forall (fun s => adm (row s) = None /\ spell_id s = None)
    (out_of two_open_spells) /\
  ~ NoDup (map spell_id (out_of two_open_spells)).
Proof.
  assert (out_of two_open_spells
          = [mkSpell (mkSpellRow (Some "P1") None (Some (Timestamp 2021 1 5)) 1
                        None (Some false) None None None None) None;
             mkSpell (mkSpellRow (Some "P2") None (Some (Timestamp 2021 1 5)) 1
                        None (Some false) None None None None) None]) as ->
    by (vm_compute; reflexivity).
  split; [done |]. split; [by repeat constructor |].
  intros [Hin _]%NoDup_cons. apply Hin. by left.
Qed.

(** *** Uniqueness of the identifier on complete keys *)

Hypothesis timestamp_to_string_bar_free :
  forall t, bar_free (timestamp_to_string t) = true.
Hypothesis timestamp_to_string_inj : Inj (=) (=) timestamp_to_string.

Lemma make_spell_id_inj (r1 r2 : spell_row) (x : string) :
  make_spell_id timestamp_to_string r1 = Some x ->
  make_spell_id timestamp_to_string r2 = Some x ->
  spell_key_of r1 = spell_key_of r2.
Proof.
  unfold make_spell_id, spell_key_of.
  destruct (sp_PSEUDO_HESID r1) as [p1 |], (adm r1) as [a1 |], (dis r1) as [d1 |];
    simpl; try done.
  destruct (sp_PSEUDO_HESID r2) as [p2 |], (adm r2) as [a2 |], (dis r2) as [d2 |];
    simpl; try done.
  intros [= <-] [= Heq].
  rewrite (append_assoc _ "|" (timestamp_to_string d2)),
    (append_assoc _ "|" (timestamp_to_string d1)) in Heq.
  apply append_bar_inj in Heq as [Heq ->%timestamp_to_string_inj]; [| done ..].
  rewrite (append_assoc p2 "|"), (append_assoc p1 "|") in Heq.
  apply append_bar_inj in Heq as [-> ->%timestamp_to_string_inj]; done.
Qed.


End Collapse.

(** ** Worked examples *)

Lemma bits_not_empty (p : positive) : bits p <> "".
Proof. by destruct p. Qed.

Lemma bits_inj : Inj (=) (=) bits.
Proof.
  intros p. induction p as [p IH | p IH |]; intros [q | q |] Heq;
    simpl in Heq; try discriminate Heq; try (injection Heq as Heq);
    first [ done
          | f_equal; by apply IH
          | by apply bits_not_empty in Heq
          | symmetry in Heq; by apply bits_not_empty in Heq ].
Qed.

Lemma bits_bar_free (p : positive) : bar_free (bits p) = true.
Proof. induction p; simpl; done. Qed.

Lemma sample_timestamp_to_string_inj : Inj (=) (=) sample_timestamp_to_string.
Proof.
  intros [| p | p] [| q | q] Heq; simpl in Heq; try discriminate Heq; try done;
    injection Heq as Heq; f_equal; by apply bits_inj.
Qed.

Lemma sample_timestamp_to_string_bar_free (t : Z) :
  bar_free (sample_timestamp_to_string t) = true.
Proof. destruct t; simpl; [done | apply bits_bar_free ..]. Qed.

(** The scenario of the specification collapses to one spell with two
    distinct episode keys, five days and diagnosis X. *)
Example scenario_stay_collapses :
  map (fun s => (n_episodes (row s), los_days (row s), any_emerg (row s),
                 primary_diag (row s)))
    (clean_and_collapse sample_parse_text sample_timestamp_to_string scenario_stay)
  = [(2, Some 5, Some true, Some "X")].
Proof. vm_compute. reflexivity. Qed.

(** Stays of 0, 1, 730 and 731 days and a stay discharged before its
    admission: the lengths 1 and 730 are kept. *)
Example los_filter_bounds :
  map (fun s => (sp_PSEUDO_HESID (row s), los_days (row s)))
    (clean_and_collapse sample_parse_text sample_timestamp_to_string
       [stay_of_days "P0" (-1); stay_of_days "P1" 0; stay_of_days "P2" 729;
        stay_of_days "P3" 730; stay_of_days "P4" (-3)])
  = [(Some "P1", Some 1); (Some "P2", Some 730)].
Proof. vm_compute. reflexivity. Qed.

(** A lookup with a repeated code does not multiply the episodes. *)
Example attach_imd_duplicated_lookup :
  (fun r => match r with
            | Ok out => map ep_imd_quintile out
            | Raise _ => []
            end)
    (attach_imd_frame
       [episode_in (Some "E01"); episode_in (Some "E09"); episode_in None]
       duplicated_lookup)
  = [Some 1; None; None].
Proof. vm_compute. reflexivity. Qed.

(** ** Instances of the conditional statements *)

Lemma any_emerg_false_without_admimeth_witness :
  Forall (fun s => any_emerg (row s) = Some false)
    (clean_and_collapse sample_parse_text sample_timestamp_to_string
       (tied_diagnoses NaT)).
Proof.
  apply Forall_forall. intros s Hs.
  apply (any_emerg_false_without_admimeth sample_parse_text
           sample_timestamp_to_string (tied_diagnoses NaT) s Hs).
  intros j Hj _. unfold tied_diagnoses in Hj.
  repeat (apply elem_of_cons in Hj as [-> | Hj]; [reflexivity |]).
  by apply elem_of_nil in Hj.
Defined.


Lemma list_year_csvs_last_witness :
  exists dropped kept,
    sorted ["d/2021.csv"; "d/2019.csv"; "d/2020.csv"] = (dropped ++ kept)%list /\
    list_year_csvs ["d/2021.csv"; "d/2019.csv"; "d/2020.csv"] (Some 2) = Ok kept /\
    length kept = Nat.min (Z.to_nat 2) 3 /\
    forall x y, x ∈ dropped -> y ∈ kept -> String.le x y.
Proof.
  apply (list_year_csvs_last ["d/2021.csv"; "d/2019.csv"; "d/2020.csv"] 2);
    [lia | discriminate].
Defined.



(** * Further properties *)

(** ** The listing of yearly files *)

Lemma sorted_Permutation_eq (l1 l2 : list string) :
  l1 ≡ₚ l2 -> sorted l1 = sorted l2.
Proof.
  intros Hp. apply (StronglySorted_unique String.le);
    [apply sorted_StronglySorted .. |].
  by rewrite !sorted_Permutation.
Qed.

Lemma sorted_elem (l : list string) (f : string) : f ∈ sorted l <-> f ∈ l.
Proof. by rewrite sorted_Permutation. Qed.

(** Whatever the limit, the files kept are a tail of the sorted listing. *)
Lemma list_year_csvs_tail (globbed : list string) (n_years : option Z)
    (files : list string) :
  list_year_csvs globbed n_years = Ok files ->
  files <> [] /\ exists k, files = drop k (sorted globbed).
Proof.
  unfold list_year_csvs.
  assert (exists k,
            match n_years with
            | Some n => slice_from (- n) (sorted globbed)
            | None => sorted globbed
            end = drop k (sorted globbed)) as [k ->].
  { destruct n_years; [by eexists | by exists 0%nat]. }
  destruct (drop k (sorted globbed)) eqn:Hd; [done |].
  intros [= <-]. split; [done | by exists k].
Qed.

(** X5: whatever the limit, a listing that is returned is not empty, is in
    ascending order, is a tail of the sorted glob result, and holds only
    files the glob returned. *)
Theorem list_year_csvs_returns_sorted_tail (globbed : list string)
    (n_years : option Z) (files : list string) :
  list_year_csvs globbed n_years = Ok files ->
  files <> [] /\
  StronglySorted String.le files /\
  files `suffix_of` sorted globbed /\
  forall f, f ∈ files -> f ∈ globbed.
Proof.
  intros [Hne [k ->]]%list_year_csvs_tail.
  split; [done |]. split; [| split].
  - apply (StronglySorted_app_1_r _ (take k (sorted globbed))).
    rewrite take_drop. apply sorted_StronglySorted.
  - apply suffix_drop.
  - intros f Hf. apply sorted_elem.
    rewrite <- (take_drop k (sorted globbed)). apply elem_of_app. by right.
Qed.

(** X6: the listing does not depend on the order in which the glob returns
    the files. *)
Theorem list_year_csvs_glob_order (globbed globbed' : list string)
    (n_years : option Z) :
  globbed ≡ₚ globbed' ->
  list_year_csvs globbed n_years = list_year_csvs globbed' n_years.
Proof.
  intros Hp. unfold list_year_csvs. by rewrite (sorted_Permutation_eq _ _ Hp).
Qed.

(** X7: a negative limit [-k] drops the first [k] files of the sorted
    listing and keeps all the others; when the directory has at most [k]
    files it raises [FileNotFoundError] although CSV files may exist. *)
Theorem list_year_csvs_negative_limit (globbed : list string) (n : Z) :
  n < 0 ->
  list_year_csvs globbed (Some n)
  = if decide (Z.of_nat (length globbed) <= - n)
    then Raise FileNotFoundError
    else Ok (drop (Z.to_nat (- n)) (sorted globbed)).
Proof.
  intros Hn. unfold list_year_csvs, slice_from.
  destruct (Z.ltb_spec (- n) 0) as [? | _]; [lia |].
  rewrite sorted_length.
  destruct (decide (Z.of_nat (length globbed) <= - n)) as [Hle | Hgt].
  - rewrite drop_ge; [done |]. rewrite sorted_length. lia.
  - rewrite Z.min_l by lia.
    destruct (drop _ _) eqn:Hd; [| done].
    apply drop_nil_inv in Hd. rewrite sorted_length in Hd. lia.
Qed.

(** ** Loading the episode files *)

Lemma read_one_eq (fs : filesystem) (path : string) :
  read_one fs path = ([ReadCsv path], read_csv fs path).
Proof. reflexivity. Qed.

Lemma io_bind_Ok {A B} (k : A -> io B) (t : list event) (a : A) :
  ((t, Ok a) : io A) ≫= k = ((t ++ (k a).1)%list, (k a).2).
Proof. unfold mbind, io_bind. by destruct (k a). Qed.

Lemma io_bind_Raise {A B} (k : A -> io B) (t : list event) (e : exn) :
  ((t, Raise e) : io A) ≫= k = (t, Raise e).
Proof. reflexivity. Qed.

Lemma io_for_cons {A B} (f : A -> io B) (x : A) (l : list A) :
  io_for f (x :: l) = (y ← f x; ys ← io_for f l; mret (y :: ys)).
Proof. reflexivity. Qed.

Lemma io_for_read_one_Ok (fs : filesystem) (files : list string)
    (dfs : list (list episode)) :
  Forall2 (fun f d => read_csv fs f = Ok d) files dfs ->
  io_for (read_one fs) files = (map ReadCsv files, Ok dfs).
Proof.
  induction 1 as [| f d files dfs Hf _ IH]; [done |].
  rewrite io_for_cons, (read_one_eq fs f), Hf, io_bind_Ok, IH, io_bind_Ok.
  cbn. by rewrite app_nil_r.
Qed.

Lemma io_for_read_one_Raise (fs : filesystem) (pre post : list string)
    (dfs : list (list episode)) (f : string) (e : exn) :
  Forall2 (fun f d => read_csv fs f = Ok d) pre dfs ->
  read_csv fs f = Raise e ->
  io_for (read_one fs) (pre ++ f :: post)
  = (map ReadCsv (pre ++ [f]), Raise (A := list (list episode)) e).
Proof.
  intros Hpre Hf.
  induction Hpre as [| f0 d pre dfs Hf0 _ IH]; cbn [app].
  - by rewrite io_for_cons, (read_one_eq fs f), Hf, io_bind_Raise.
  - rewrite io_for_cons, (read_one_eq fs f0), Hf0, io_bind_Ok, IH, io_bind_Raise.
    reflexivity.
Qed.

Lemma io_for_read_one_trace (fs : filesystem) (files : list string) :
  Forall (fun ev => is_read ev = true) (io_for (read_one fs) files).1.
Proof.
  induction files as [| f files IH]; [constructor |].
  rewrite io_for_cons, (read_one_eq fs f).
  destruct (read_csv fs f) as [d | e]; [| by repeat constructor].
  rewrite io_bind_Ok. cbn [fst]. constructor; [done |].
  destruct (io_for (read_one fs) files) as [t [ds | e]]; cbn in *;
    by rewrite ?app_nil_r.
Qed.

(** [load_df] without the monad: the frames that were read, then the
    check for an empty frame. *)
Lemma load_df_eq (fs : filesystem) (inp : string) (n_years : option Z) :
  load_df fs inp n_years
  = match (if isdir fs inp then
             match list_year_csvs (glob fs (path_join inp "*.csv")) n_years with
             | Ok files =>
                 ((io_for (read_one fs) files).1,
                  match (io_for (read_one fs) files).2 with
                  | Ok dfs => Ok (concat dfs)
                  | Raise e => Raise e
                  end)
             | Raise e => ([], Raise e)
             end
           else ([ReadCsv inp], read_csv fs inp)) with
    | (t, Ok []) => (t, Raise ValueError)
    | (t, Ok out) => (t, Ok out)
    | (t, Raise e) => (t, Raise e)
    end.
Proof.
  unfold load_df. destruct (isdir fs inp).
  - destruct (list_year_csvs _ _) as [files | e]; [| reflexivity].
    unfold io_lift. rewrite io_bind_Ok. cbn [app].
    destruct (io_for (read_one fs) files) as [t [dfs | e]]; [| reflexivity].
    rewrite io_bind_Ok. cbn [fst snd mret io_ret]. rewrite app_nil_r.
    rewrite io_bind_Ok.
    destruct (concat dfs); cbn; by rewrite app_nil_r.
  - rewrite read_one_eq.
    destruct (read_csv fs inp) as [[| x out] | e]; [| | reflexivity];
      rewrite io_bind_Ok; cbn; reflexivity.
Qed.

(** X8: in directory mode, when every selected file can be read, the
    loader reads exactly the selected files, in sorted order, and returns
    their rows concatenated in that order, or raises [ValueError] when
    they hold no row at all. *)
Theorem load_df_directory (fs : filesystem) (inp : string) (n_years : option Z)
    (files : list string) (dfs : list (list episode)) :
  isdir fs inp = true ->
  list_year_csvs (glob fs (path_join inp "*.csv")) n_years = Ok files ->
  Forall2 (fun f d => read_csv fs f = Ok d) files dfs ->
  load_df fs inp n_years
  = (map ReadCsv files,
     if decide (concat dfs = []) then Raise ValueError else Ok (concat dfs)).
Proof.
  intros Hdir Hfiles Hread.
  rewrite load_df_eq, Hdir, Hfiles, (io_for_read_one_Ok fs files dfs Hread).
  cbn [fst snd]. by destruct (concat dfs).
Qed.

(** X9: in directory mode the loader stops at the first selected file that
    cannot be read: the files before it have been read, the ones after it
    are not, and its error is the result. *)
Theorem load_df_stops_at_unreadable (fs : filesystem) (inp : string)
    (n_years : option Z) (pre post : list string) (dfs : list (list episode))
    (f : string) (e : exn) :
  isdir fs inp = true ->
  list_year_csvs (glob fs (path_join inp "*.csv")) n_years
  = Ok (pre ++ f :: post)%list ->
  Forall2 (fun f d => read_csv fs f = Ok d) pre dfs ->
  read_csv fs f = Raise e ->
  load_df fs inp n_years = (map ReadCsv (pre ++ [f]), Raise e).
Proof.
  intros Hdir Hfiles Hpre Hf.
  by rewrite load_df_eq, Hdir, Hfiles,
    (io_for_read_one_Raise fs pre post dfs f e Hpre Hf).
Qed.

Lemma load_df_trace (fs : filesystem) (inp : string) (n_years : option Z) :
  Forall (fun ev => is_read ev = true) (load_df fs inp n_years).1.
Proof.
  rewrite load_df_eq. destruct (isdir fs inp).
  - destruct (list_year_csvs _ _) as [files | e]; [| constructor].
    pose proof (io_for_read_one_trace fs files) as Ht.
    destruct (io_for (read_one fs) files) as [t [ds | e]]; cbn in *; [| done].
    by destruct (concat ds).
  - destruct (read_csv fs inp) as [[| ? ?] | e]; cbn; by repeat constructor.
Qed.

Lemma io_for_trace_nil {A B} (f : A -> io B) (x : A) (l : list A) :
  (forall y, (f y).1 <> []) -> (io_for f (x :: l)).1 <> [].
Proof.
  intros Hf. rewrite io_for_cons. specialize (Hf x).
  destruct (f x) as [t [b | e]]; [| done].
  rewrite io_bind_Ok. cbn [fst] in *. by destruct t.
Qed.

Lemma load_df_Ok (fs : filesystem) (inp : string) (n_years : option Z)
    (t : list event) (out : list episode) :
  load_df fs inp n_years = (t, Ok out) -> out <> [] /\ t <> [].
Proof.
  rewrite load_df_eq. destruct (isdir fs inp).
  - destruct (list_year_csvs _ _) as [files | e] eqn:Hfiles; [| done].
    apply list_year_csvs_tail in Hfiles as [Hne _].
    destruct files as [| f files]; [done |].
    pose proof (io_for_trace_nil (read_one fs) f files
                  ltac:(by intros y; rewrite read_one_eq)) as Ht.
    destruct (io_for (read_one fs) (f :: files)) as [t' [ds | e]];
      cbn [fst snd] in *; [| done].
    destruct (concat ds); [done |]. by intros [= <- <-].
  - destruct (read_csv fs inp) as [[| ? ?] | e]; [done | | done].
    by intros [= <- <-].
Qed.

(** X10: a frame the loader returns is never empty, at least one file was
    read for it and nothing was written; in single-file mode that file is
    the only one read, whatever the limit. *)
Theorem load_df_returns_rows (fs : filesystem) (inp : string)
    (n_years : option Z) (t : list event) (out : list episode) :
  load_df fs inp n_years = (t, Ok out) ->
  out <> [] /\
  t <> [] /\
  Forall (fun ev => is_read ev = true) t /\
  (isdir fs inp = false -> t = [ReadCsv inp] /\ read_csv fs inp = Ok out).
Proof.
  intros Hload. destruct (load_df_Ok fs inp n_years t out Hload) as [Hout Ht].
  split; [done |]. split; [done |]. split.
  - pose proof (load_df_trace fs inp n_years) as Htr. by rewrite Hload in Htr.
  - intros Hfile. revert Hload. rewrite load_df_eq, Hfile.
    destruct (read_csv fs inp) as [[| ? ?] | e]; [done | | done].
    by intros [= <- <-].
Qed.

(** ** The deprivation join, continued *)

Lemma head_filter_drop_duplicates_from {A K} `{EqDecision K} (key : A -> K)
    (seen : list K) (l : list A) (k : K) :
  k ∉ seen ->
  head (filter (fun x => key x = k) (drop_duplicates_from key seen l))
  = head (filter (fun x => key x = k) l).
Proof.
  revert seen. induction l as [| x l IH]; intros seen Hk; [done |].
  cbn [drop_duplicates_from].
  destruct (decide (key x ∈ seen)) as [Hin | Hout].
  - rewrite (filter_cons_False _ x l) by (intros Heq; apply Hk; by rewrite <- Heq).
    by apply IH.
  - destruct (decide (key x = k)) as [Heq | Hne].
    + by rewrite !filter_cons_True.
    + rewrite !filter_cons_False by done. apply IH.
      intros [-> | ?]%elem_of_cons; done.
Qed.

Lemma attach_row_first_match (lookup : list (option string * option Z))
    (e : episode) :
  ep_imd_quintile (attach_row (drop_duplicates fst lookup) e)
  = head (filter (fun r => r.1 = LSOA11 e) lookup) ≫= snd.
Proof.
  unfold attach_row. cbn [ep_imd_quintile]. f_equal.
  rewrite (list_filter_iff _ (fun r => r.1 = LSOA11 e)).
  - apply head_filter_drop_duplicates_from. apply not_elem_of_nil.
  - intros r. rewrite bool_decide_eq_true. split; congruence.
Qed.

Lemma attach_imd_frame_Ok_pairs (df : list episode) (imd : imd_frame)
    (out : list joined) :
  attach_imd_frame df imd = Ok out ->
  out = map (attach_row (drop_duplicates fst (lookup_pairs imd))) df.
Proof.
  unfold attach_imd_frame, lookup_pairs.
  destruct (negb _); [done |]. destruct (_ && _); [done |].
  intros [= <-]. rewrite merge_left_deduplicated.
  by destruct (bool_decide _).
Qed.

(** X11: when the lookup lists a code several times, the first row with
    that code decides: every episode gets the quintile of the first lookup
    row whose code equals its own (a missing code matching a missing
    code), and a missing quintile when there is no such row. *)
Theorem attach_imd_first_row_wins (df : list episode) (imd : imd_frame)
    (out : list joined) :
  attach_imd_frame df imd = Ok out ->
  Forall2
    (fun e j =>
       ep j = e /\
       ep_imd_quintile j
       = head (filter (fun r => r.1 = LSOA11 e) (lookup_pairs imd)) ≫= snd)
    df out.
Proof.
  intros ->%attach_imd_frame_Ok_pairs.
  induction df as [| e df IH]; [constructor |].
  rewrite map_cons. constructor; [| exact IH].
  split; [done | apply attach_row_first_match].
Qed.


(** ** The whole run *)

Section Run.
Variable parse_text : string -> option Z.
Variable timestamp_to_string : Z -> string.

(** [main] without the monad. *)
Lemma main_eq (fs : filesystem) (inp imd_parquet outp : string)
    (n_years : option Z) :
  main parse_text timestamp_to_string fs inp imd_parquet outp n_years
  = match load_df fs inp n_years with
    | (t, Raise e) => (t, Raise e)
    | (t, Ok df) =>
        match read_parquet fs imd_parquet with
        | Raise e => ((t ++ [ReadParquet imd_parquet])%list, Raise e)
        | Ok imd =>
            match attach_imd_frame df imd with
            | Raise e => ((t ++ [ReadParquet imd_parquet])%list, Raise e)
            | Ok j =>
                ((t ++ [ReadParquet imd_parquet; Makedirs outp;
                        ToParquet outp
                          (clean_and_collapse parse_text timestamp_to_string j)])%list,
                 Ok ())
            end
        end
    end.
Proof.
  unfold main, attach_imd.
  destruct (load_df fs inp n_years) as [t [df | e]]; [| reflexivity].
  rewrite io_bind_Ok.
  destruct (read_parquet fs imd_parquet) as [imd | e]; [| reflexivity].
  rewrite io_bind_Ok. unfold io_lift.
  destruct (attach_imd_frame df imd) as [j | e]; cbn;
    by rewrite <- ?app_assoc, ?app_nil_r.
Qed.

(** X13: a run that succeeds has loaded a non-empty episode frame, then
    read the lookup once, joined it, and last created the output directory
    and written, once, the collapse of the joined frame. *)
Theorem main_success (fs : filesystem) (inp imd_parquet outp : string)
    (n_years : option Z) (t : list event) :
  main parse_text timestamp_to_string fs inp imd_parquet outp n_years
  = (t, Ok ()) ->
  exists t1 df imd j,
    load_df fs inp n_years = (t1, Ok df) /\
    df <> [] /\
    read_parquet fs imd_parquet = Ok imd /\
    attach_imd_frame df imd = Ok j /\
    length j = length df /\
    t = (t1 ++ [ReadParquet imd_parquet; Makedirs outp;
                ToParquet outp
                  (clean_and_collapse parse_text timestamp_to_string j)])%list.
Proof.
  rewrite main_eq.
  destruct (load_df fs inp n_years) as [t1 [df | e]] eqn:Hload; [| done].
  destruct (read_parquet fs imd_parquet) as [imd | e]; [| done].
  destruct (attach_imd_frame df imd) as [j | e] eqn:Hj; [| done].
  intros [= <-]. exists t1, df, imd, j.
  split; [done |]. split; [by apply load_df_Ok in Hload as [? _] |].
  split; [done |]. split; [done |]. split; [| done].
  apply attach_imd_frame_Ok_pairs in Hj as ->. by rewrite length_map.
Qed.


End Run.

(** ** The collapse, continued *)

Lemma remove_dups_length_le {A} `{EqDecision A} (l : list A) :
  (length (remove_dups l) <= length l)%nat.
Proof.
  apply submseteq_length, NoDup_submseteq; [apply NoDup_remove_dups |].
  intros x. by rewrite elem_of_remove_dups.
Qed.

Lemma bool_or_true_iff (l : list (option bool)) :
  bool_or l = Some true <-> Some true ∈ l.
Proof.
  induction l as [| x l IH]; [by rewrite elem_of_nil |].
  rewrite elem_of_cons, <- IH. change (bool_or (x :: l)) with
    (match x, bool_or l with
     | Some a, Some b => Some (a || b)
     | Some a, None => Some a
     | None, acc => acc
     end).
  destruct x as [[] |], (bool_or l) as [[] |]; cbn; intuition congruence.
Qed.

Lemma bool_or_is_Some (l : list (option bool)) :
  l <> [] -> Forall is_Some l -> is_Some (bool_or l).
Proof.
  intros Hne Hall. destruct l as [| x l]; [done |].
  apply Forall_cons in Hall as [[a ->] _].
  change (bool_or (Some a :: l)) with
    (match bool_or l with Some b => Some (a || b) | None => Some a end).
  by destruct (bool_or l).
Qed.

Lemma is_emergency_is_Some (admimeth : option string) :
  is_Some (is_emergency admimeth).
Proof. by destruct admimeth. Qed.

Lemma substring_0_0 (s : string) : substring 0 0 s = "".
Proof. by destruct s. Qed.

Lemma first_character_2 (s : string) :
  substring 0 1 s = "2" <-> exists m, s = String "2" m.
Proof.
  destruct s as [| c m]; cbn [substring].
  - split; [done | by intros [? ?]].
  - rewrite substring_0_0. split.
    + intros [= ->]. by exists m.
    + by intros [? [= -> _]].
Qed.

(** The expression is TRUE exactly on a code whose first character is 2. *)
Lemma is_emergency_true_iff (admimeth : option string) :
  is_emergency admimeth = Some true <-> exists m, admimeth = Some (String "2" m).
Proof.
  unfold is_emergency. destruct admimeth as [s |]; cbn.
  - split.
    + intros [= Hs%bool_decide_eq_true]. apply first_character_2 in Hs as [m ->].
      by exists m.
    + intros [m [= ->]].
      rewrite bool_decide_eq_true_2; [done | apply first_character_2; by exists m].
  - split; [done | by intros [? ?]].
Qed.

Lemma any_value_Some {V} (l : list (option V)) (v : V) :
  any_value l = Some v -> Some v ∈ l.
Proof.
  unfold any_value. intros Hh.
  assert (v ∈ omap id l) as Hin.
  { destruct (omap id l); simplify_eq/=. by left. }
  apply list_elem_of_omap in Hin as (x & Hx & Heq). by rewrite <- Heq.
Qed.

Lemma any_value_None_iff_head {V} (l : list (option V)) :
  omap id l = [] <-> Forall (fun x => x = None) l.
Proof.
  split.
  - intros Hnil. apply Forall_forall. intros [v |] Hx; [| done].
    assert (v ∈ omap id l) as Hin by (apply list_elem_of_omap; by exists (Some v)).
    rewrite Hnil in Hin. by apply elem_of_nil in Hin.
  - intros Hall. induction Hall as [| x l -> _ IH]; [done |].
    by rewrite omap_cons_eq.
Qed.

Lemma any_value_None {V} (l : list (option V)) :
  any_value l = None <-> Forall (fun x => x = None) l.
Proof. unfold any_value. by rewrite head_None, any_value_None_iff_head. Qed.

Lemma sql_max_constant (l : list (option Z)) (v : option Z) :
  l <> [] -> Forall (fun x => x = v) l -> sql_max l = v.
Proof.
  intros Hne Hall. induction Hall as [| x l -> Hall IH]; [done |].
  change (sql_max (v :: l)) with
    (match v, sql_max l with
     | Some a, Some b => Some (Z.max a b)
     | Some a, None => Some a
     | None, acc => acc
     end).
  destruct l as [| y l]; [by destruct v |].
  rewrite IH by done. destruct v; [| done]. by rewrite Z.max_id.
Qed.

Section CollapseMore.
Variable parse_text : string -> option Z.
Variable timestamp_to_string : Z -> string.

Local Abbreviation out_of df := (clean_and_collapse parse_text timestamp_to_string df).
Local Abbreviation cleaned_of df := (map (clean parse_text) df).

(** A returned spell is the recomputed row of a group that passes the
    filter; the rows of the group are the cleaned episodes with its key,
    and there is at least one. *)
Lemma returned_group (df : list joined) (s : spell) :
  s ∈ out_of df ->
  exists k,
    spell_key_of (row s) = k /\
    row s = recompute_los (spell_of (cleaned_of df) k) /\
    los_ok (days_plus_one k.1.2 k.2) = true /\
    group_rows key_of k (cleaned_of df) <> [] /\
    forall c, c ∈ group_rows key_of k (cleaned_of df) <->
              exists j, j ∈ df /\ c = clean parse_text j /\ key_of c = k.
Proof.
  intros (k & Hk & Hrow & Hok & _)%clean_and_collapse_elem.
  exists k. split; [by apply (clean_and_collapse_key parse_text df s k) |].
  split; [done |]. split; [done |].
  assert (forall c, c ∈ group_rows key_of k (cleaned_of df) <->
                    exists j, j ∈ df /\ c = clean parse_text j /\ key_of c = k)
    as Hgroup.
  { intros c. rewrite group_rows_elem, list_elem_of_fmap. split.
    - intros [Hck (j & -> & Hj)]. by exists j.
    - intros (j & Hj & -> & Hck). split; [done | by exists j]. }
  split; [| done].
  apply group_keys_elem in Hk as (c & (j & -> & Hj)%list_elem_of_fmap & Hck).
  intros Hnil.
  assert (clean parse_text j ∈ group_rows key_of k (cleaned_of df)) as Hin
    by (apply Hgroup; by exists j).
  rewrite Hnil in Hin. by apply elem_of_nil in Hin.
Qed.

(** X15: the collapse never returns more spells than there are distinct
    grouping keys, hence never more spells than episodes. *)
Theorem collapse_never_grows (df : list joined) :
  (length (out_of df)
   <= length (remove_dups (map key_of (cleaned_of df)))
   <= length df)%nat.
Proof.
  split.
  - rewrite <- (length_map (fun s => spell_key_of (row s)) (out_of df)).
    rewrite clean_and_collapse_keys. apply length_filter.
  - etrans; [apply remove_dups_length_le |]. by rewrite !length_map.
Qed.

Lemma repair_date_Some (c : datecell) (t : Z) :
  repair_date parse_text c = Some t -> CUTOFF <= t.
Proof.
  unfold repair_date, null_before_cutoff.
  destruct (to_datetime parse_text c) as [x |]; [| done].
  destruct (Z.ltb_spec x CUTOFF); [done |]. by intros [= <-].
Qed.

(** X16: on every returned spell a date that is present is not before
    1900-01-01, and when both are present the discharge is not before the
    admission and less than 730 days after it. *)
Theorem returned_dates_plausible (df : list joined) :
  Forall (fun s =>
            (forall a, adm (row s) = Some a -> CUTOFF <= a) /\
            (forall d, dis (row s) = Some d -> CUTOFF <= d) /\
            (forall a d, adm (row s) = Some a -> dis (row s) = Some d ->
               a <= d < a + 730 * ns_per_day))
    (out_of df).
Proof.
  apply Forall_forall. intros s Hs.
  destruct (returned_group df s Hs) as (k & Hkey & Hrow & Hok & Hne & Hgroup).
  destruct (group_rows key_of k (cleaned_of df)) as [| c g] eqn:Hg; [done |].
  destruct (proj1 (Hgroup c) ltac:(left)) as (j & _ & -> & Hck).
  rewrite <- Hkey in Hck, Hok. unfold spell_key_of in Hck, Hok.
  injection Hck as _ Hadm Hdis. cbn in Hadm, Hdis, Hok.
  split; [| split].
  - intros a Ha. rewrite Ha in Hadm. by apply repair_date_Some in Hadm.
  - intros d Hd. rewrite Hd in Hdis. by apply repair_date_Some in Hdis.
  - intros a d Ha Hd. rewrite Ha, Hd in Hok.
    apply los_ok_days_plus_one in Hok.
    assert (0 < ns_per_day) as Hpos by done.
    pose proof (Z.div_mod (d - a) ns_per_day ltac:(lia)) as Hdiv.
    pose proof (Z.mod_pos_bound (d - a) ns_per_day Hpos) as Hmod.
    nia.
Qed.

(** X17: [any_emerg] of a returned spell is never missing, and it is true
    exactly when one episode of the spell has an admission-method code
    whose first character is 2. *)
Theorem any_emerg_iff_some_code_starts_with_2 (df : list joined) :
  Forall (fun s =>
            is_Some (any_emerg (row s)) /\
            (any_emerg (row s) = Some true <->
             exists j m, j ∈ df /\
               key_of (clean parse_text j) = spell_key_of (row s) /\
               ADMIMETH (ep j) = Some (String "2" m)))
    (out_of df).
Proof.
  apply Forall_forall. intros s Hs.
  destruct (returned_group df s Hs) as (k & Hkey & Hrow & _ & Hne & Hgroup).
  rewrite Hkey, Hrow.
  cbn [any_emerg recompute_los spell_of b_any_emerg base_of].
  split.
  - apply bool_or_is_Some; [by intros ?%fmap_nil_inv |].
    apply Forall_forall. intros x (c & -> & _)%list_elem_of_fmap.
    apply is_emergency_is_Some.
  - rewrite bool_or_true_iff, list_elem_of_fmap. split.
    + intros (c & Hc & (j & Hj & -> & Hck)%Hgroup).
      symmetry in Hc. apply is_emergency_true_iff in Hc as [m Hm].
      by exists j, m.
    + intros (j & m & Hj & Hck & Hm). exists (clean parse_text j). split.
      * symmetry. apply is_emergency_true_iff. by exists m.
      * apply Hgroup. by exists j.
Qed.

(** X18: the [imd_quintile] of a returned spell is the quintile of one of
    its episodes, and it is missing only when the quintile of every
    episode of the spell is missing. *)
Theorem imd_quintile_from_the_group (df : list joined) :
  Forall (fun s =>
            match imd_quintile (row s) with
            | Some q =>
                exists j, j ∈ df /\
                  key_of (clean parse_text j) = spell_key_of (row s) /\
                  ep_imd_quintile j = Some q
            | None =>
                forall j, j ∈ df ->
                  key_of (clean parse_text j) = spell_key_of (row s) ->
                  ep_imd_quintile j = None
            end)
    (out_of df).
Proof.
  apply Forall_forall. intros s Hs.
  destruct (returned_group df s Hs) as (k & Hkey & Hrow & _ & _ & Hgroup).
  rewrite Hkey, Hrow.
  cbn [imd_quintile recompute_los spell_of b_imd_quintile base_of].
  destruct (any_value _) as [q |] eqn:Hany.
  - apply any_value_Some in Hany.
    apply list_elem_of_fmap in Hany as (c & Hc & (j & Hj & -> & Hck)%Hgroup).
    by exists j.
  - intros j Hj Hck.
    apply any_value_None in Hany.
    eapply Forall_forall in Hany; [exact Hany |].
    apply list_elem_of_fmap. exists (clean parse_text j).
    split; [done |]. apply Hgroup. by exists j.
Qed.

(** X19: on every returned spell the recomputed [los_days] equals the
    [MAX(los_days)] of the spell's episodes that it overwrites; the
    recomputation only matters for the spells the filter drops. *)
Theorem recomputed_los_is_group_maximum (df : list joined) :
  Forall (fun s =>
            los_days (row s)
            = sql_max (map ep_los_days
                         (group_rows key_of (spell_key_of (row s))
                            (cleaned_of df))))
    (out_of df).
Proof.
  apply Forall_forall. intros s Hs.
  destruct (returned_group df s Hs) as (k & Hkey & Hrow & Hok & Hne & Hgroup).
  rewrite Hkey, Hrow. cbn [los_days recompute_los].
  assert (adm (spell_of (cleaned_of df) k) = k.1.2 /\
          dis (spell_of (cleaned_of df) k) = k.2) as [-> ->] by done.
  symmetry. apply sql_max_constant; [by intros ?%fmap_nil_inv |].
  apply Forall_forall.
  intros x (c & -> & (j & _ & -> & Hck)%Hgroup)%list_elem_of_fmap.
  rewrite <- Hck in *. cbn [key_of ep_adm ep_dis ep_los_days clean fst snd] in *.
  destruct (days_plus_one _ _) as [l |] eqn:Hl; [| done].
  cbn in Hok. apply andb_true_iff in Hok as [Hlo%Z.leb_le _].
  cbn. destruct (Z.leb_spec l 0); [lia | done].
Qed.

End CollapseMore.

(** ** The reshaper and the join *)


Lemma head_filter_fmap_pair {A K V} `{EqDecision K} (key : A -> K) (val : A -> V)
    (k : K) (l : list A) :
  head (filter (fun r : K * V => r.1 = k) (map (fun x => (key x, val x)) l))
  = (fun x => (key x, val x)) <$> head (filter (fun x => key x = k) l).
Proof.
  induction l as [| x l IH]; [done |].
  rewrite map_cons, !filter_cons. cbn [fst].
  destruct (decide (key x = k)); [done | exact IH].
Qed.


(** ** The pandas mode *)

Lemma occurrences_Permutation (v : string) (l1 l2 : list string) :
  l1 ≡ₚ l2 -> occurrences v l1 = occurrences v l2.
Proof. intros Hp. unfold occurrences. by rewrite Hp. Qed.

Lemma is_mode_lex_Permutation (l1 l2 : list string) (m : option string) :
  l1 ≡ₚ l2 -> is_mode_lex l1 m -> is_mode_lex l2 m.
Proof.
  intros Hp. destruct m as [v |]; cbn.
  - intros [Hv Hmax]. split; [by rewrite <- Hp |].
    intros w Hw. rewrite <- !(occurrences_Permutation _ l1 l2 Hp).
    apply Hmax. by rewrite Hp.
  - intros ->. symmetry. by apply Permutation_nil_l.
Qed.

(** The mode with the lexicographic tie-break is determined by the
    values. *)
Lemma is_mode_lex_unique (vals : list string) (m1 m2 : option string) :
  is_mode_lex vals m1 -> is_mode_lex vals m2 -> m1 = m2.
Proof.
  destruct m1 as [v1 |], m2 as [v2 |]; cbn.
  - intros [Hv1 H1] [Hv2 H2]. f_equal.
    destruct (H1 v2 Hv2) as [Hle1 Htie1], (H2 v1 Hv1) as [Hle2 Htie2].
    apply (anti_symm String.le); [apply Htie1 | apply Htie2]; lia.
  - intros [Hv1 _] ->. by apply elem_of_nil in Hv1.
  - intros -> [Hv2 _]. by apply elem_of_nil in Hv2.
  - done.
Qed.

Lemma argmax_exists {A} (f : A -> Z) (l : list A) :
  l <> [] -> exists v, v ∈ l /\ forall w, w ∈ l -> f w <= f v.
Proof.
  induction l as [| x l IH]; [done |]. intros _.
  destruct l as [| y l].
  - exists x. split; [by left |]. intros w ->%list_elem_of_singleton. lia.
  - destruct IH as (v & Hv & Hmax); [done |].
    destruct (Z.le_gt_cases (f x) (f v)).
    + exists v. split; [by right |].
      intros w [-> | Hw]%elem_of_cons; [done | by apply Hmax].
    + exists x. split; [by left |].
      intros w [-> | Hw]%elem_of_cons; [lia |].
      specialize (Hmax w Hw). lia.
Qed.

Lemma mode_or_nan_is_mode_lex (s : list (option string)) :
  is_mode_lex (dropna s) (mode_or_nan s).
Proof.
  unfold mode_or_nan, series_mode. set (vals := dropna s).
  set (cands := filter _ (remove_dups vals)).
  assert (forall v, v ∈ cands <->
            v ∈ vals /\ forall w, w ∈ vals -> occurrences w vals <= occurrences v vals)
    as Hcands.
  { intros v. unfold cands.
    by rewrite list_elem_of_filter, elem_of_remove_dups, Forall_forall, (comm and). }
  destruct (head (merge_sort String.le cands)) as [v |] eqn:Hhead; cbn.
  - apply head_merge_sort_Some in Hhead as [Hv Hmin]; [| apply _ ..].
    apply Hcands in Hv as [Hv Hmax]. split; [done |].
    intros w Hw. split; [by apply Hmax |].
    intros Htie. apply Hmin, Hcands. split; [done |].
    intros u Hu. rewrite Htie. by apply Hmax.
  - apply head_merge_sort_None in Hhead.
    destruct (decide (vals = [])) as [-> | Hne]; [done |].
    destruct (argmax_exists (fun v => occurrences v vals) vals Hne)
      as (v & Hv & Hmax).
    assert (v ∈ cands) as Hin by (by apply Hcands).
    rewrite Hhead in Hin. by apply elem_of_nil in Hin.
Qed.

Lemma dropna_nil_iff {V} (s : list (option V)) :
  dropna s = [] <-> Forall (fun x => x = None) s.
Proof. apply any_value_None_iff_head. Qed.

(** X22: [mode_or_nan] returns a most frequent non-missing value of the
    column, the smallest one in text order when several are as frequent;
    it returns a missing value exactly when every value of the column is
    missing, in particular on an empty column. *)
Theorem mode_or_nan_is_mode (s : list (option string)) :
  is_mode_lex (dropna s) (mode_or_nan s) /\
  (mode_or_nan s = None <-> Forall (fun x => x = None) s).
Proof.
  pose proof (mode_or_nan_is_mode_lex s) as Hm.
  split; [done |]. rewrite <- dropna_nil_iff. split.
  - intros Hnone. by rewrite Hnone in Hm.
  - intros Hnil. rewrite Hnil in Hm.
    destruct (mode_or_nan s) as [v |]; [| done].
    destruct Hm as [Hv _]. by apply elem_of_nil in Hv.
Qed.

(** ** The collapse and the order of the episodes *)

Lemma group_rows_Permutation {A K} `{EqDecision K} (key : A -> K) (k : K)
    (l1 l2 : list A) :
  l1 ≡ₚ l2 -> group_rows key k l1 ≡ₚ group_rows key k l2.
Proof. intros Hp. unfold group_rows. by rewrite Hp. Qed.

Lemma group_keys_Permutation_elem {A K} `{EqDecision K} (key : A -> K) (k : K)
    (l1 l2 : list A) :
  l1 ≡ₚ l2 -> k ∈ group_keys key l1 -> k ∈ group_keys key l2.
Proof.
  intros Hp (x & Hx & Hk)%group_keys_elem. apply group_keys_elem.
  exists x. by rewrite <- Hp.
Qed.

Lemma group_values_Permutation (col : cleaned -> option string) (k : spell_key)
    (l1 l2 : list cleaned) :
  l1 ≡ₚ l2 -> group_values col l1 k ≡ₚ group_values col l2 k.
Proof.
  intros Hp. unfold group_values. by rewrite (group_rows_Permutation _ _ _ _ Hp).
Qed.

Lemma count_distinct_Permutation {V} `{EqDecision V} (l1 l2 : list (option V)) :
  l1 ≡ₚ l2 -> count_distinct l1 = count_distinct l2.
Proof.
  intros Hp. unfold count_distinct. f_equal. apply Permutation_length.
  apply NoDup_Permutation; [apply NoDup_remove_dups .. |].
  intros x. by rewrite !elem_of_remove_dups, Hp.
Qed.

Lemma bool_or_Permutation (l1 l2 : list (option bool)) :
  l1 ≡ₚ l2 -> bool_or l1 = bool_or l2.
Proof.
  intros Hp. unfold bool_or.
  apply (foldr_permutation_proper (=)); [solve_proper | | done].
  intros [[] |] [[] |] [[] |]; reflexivity.
Qed.

(** The value the join takes from a mode table does not depend on the
    order of the episodes. *)
Lemma mode_at_Permutation (col : cleaned -> option string) (k : spell_key)
    (l1 l2 : list cleaned) :
  l1 ≡ₚ l2 ->
  mode_at (mode (counts col l1)) k = mode_at (mode (counts col l2)) k.
Proof.
  intros Hp. destruct (decide (complete k)) as [Hk | Hk].
  - apply (is_mode_lex_unique (group_values col l2 k)).
    + eapply is_mode_lex_Permutation; [by apply group_values_Permutation |].
      by apply mode_at_is_mode_lex.
    + by apply mode_at_is_mode_lex.
  - by rewrite !mode_at_incomplete.
Qed.

Section Order.
Variable parse_text : string -> option Z.
Variable timestamp_to_string : Z -> string.

Local Abbreviation out_of df := (clean_and_collapse parse_text timestamp_to_string df).
Local Abbreviation cleaned_of df := (map (clean parse_text) df).

(** X23: on every returned spell whose key is complete, the three
    categorical fields the query computes are what [mode_or_nan] returns
    on the corresponding columns of the spell's episodes. *)
Theorem sql_mode_is_mode_or_nan (df : list joined) :
  Forall (fun s =>
            complete (spell_key_of (row s)) ->
            let column col :=
              map (fun e => col (ep (src e)))
                (group_rows key_of (spell_key_of (row s)) (cleaned_of df)) in
            primary_diag (row s) = mode_or_nan (column DIAG_4_01) /\
            ethnicity (row s) = mode_or_nan (column ETHNOS) /\
            sex (row s) = mode_or_nan (column SEX))
    (out_of df).
Proof.
  apply Forall_forall. intros s Hs Hk. cbv zeta.
  apply clean_and_collapse_elem in Hs as (k & _ & Hrow & _ & _).
  rewrite (clean_and_collapse_key parse_text df s k Hrow) in *.
  rewrite Hrow. cbn [primary_diag ethnicity sex recompute_los spell_of].
  repeat split;
    (eapply is_mode_lex_unique; [by apply mode_at_is_mode_lex |]);
    pose proof (mode_or_nan_is_mode_lex
                  (map (fun e => DIAG_4_01 (ep (src e)))
                     (group_rows key_of k (cleaned_of df)))) as Hd;
    pose proof (mode_or_nan_is_mode_lex
                  (map (fun e => ETHNOS (ep (src e)))
                     (group_rows key_of k (cleaned_of df)))) as He;
    pose proof (mode_or_nan_is_mode_lex
                  (map (fun e => SEX (ep (src e)))
                     (group_rows key_of k (cleaned_of df)))) as Hx;
    unfold dropna in *; rewrite omap_id_map in *; done.
Qed.

Lemma forget_quintile_key (s : spell) :
  spell_key_of (row (forget_quintile s)) = spell_key_of (row s).
Proof. reflexivity. Qed.

Lemma forget_quintile_spell_of (l1 l2 : list cleaned) (k : spell_key) :
  l1 ≡ₚ l2 ->
  forget_quintile
    (mkSpell (recompute_los (spell_of l1 k))
       (make_spell_id timestamp_to_string (recompute_los (spell_of l1 k))))
  = forget_quintile
      (mkSpell (recompute_los (spell_of l2 k))
         (make_spell_id timestamp_to_string (recompute_los (spell_of l2 k)))).
Proof.
  intros Hp. unfold forget_quintile, make_spell_id.
  cbn [row spell_id recompute_los spell_of base_of sp_PSEUDO_HESID adm dis
       n_episodes los_days any_emerg primary_diag ethnicity sex
       b_n_episodes b_any_emerg].
  pose proof (group_rows_Permutation key_of k l1 l2 Hp) as Hg.
  rewrite (count_distinct_Permutation
             (map (fun e => EPIKEY (ep (src e))) (group_rows key_of k l1))
             (map (fun e => EPIKEY (ep (src e))) (group_rows key_of k l2)))
    by (by apply fmap_Permutation).
  rewrite (bool_or_Permutation
             (map (fun e => is_emergency (ADMIMETH (ep (src e))))
                (group_rows key_of k l1))
             (map (fun e => is_emergency (ADMIMETH (ep (src e))))
                (group_rows key_of k l2)))
    by (by apply fmap_Permutation).
  by rewrite !(mode_at_Permutation _ k l1 l2 Hp).
Qed.

Lemma out_of_forget_Permutation_elem (df df' : list joined) (x : spell) :
  df ≡ₚ df' ->
  x ∈ map forget_quintile (out_of df) -> x ∈ map forget_quintile (out_of df').
Proof.
  intros Hp (s & -> & Hs)%list_elem_of_fmap.
  apply clean_and_collapse_elem in Hs as (k & Hk & Hrow & Hok & Hid).
  assert (cleaned_of df ≡ₚ cleaned_of df') as Hpc by (by apply fmap_Permutation).
  apply list_elem_of_fmap.
  exists (mkSpell (recompute_los (spell_of (cleaned_of df') k))
            (make_spell_id timestamp_to_string
               (recompute_los (spell_of (cleaned_of df') k)))).
  split.
  - rewrite <- (forget_quintile_spell_of _ _ k Hpc).
    destruct s as [r i]. cbn in Hrow, Hid. by subst.
  - apply clean_and_collapse_elem. exists k.
    split; [by eapply group_keys_Permutation_elem |]. done.
Qed.

Lemma out_of_forget_NoDup (df : list joined) :
  NoDup (map forget_quintile (out_of df)).
Proof.
  apply NoDup_fmap_2_strong.
  - intros s1 s2 Hs1 Hs2 Heq.
    apply (clean_and_collapse_key_inj parse_text timestamp_to_string df);
      [done | done |].
    by rewrite <- (forget_quintile_key s1), <- (forget_quintile_key s2), Heq.
  - eapply NoDup_fmap_1, clean_and_collapse_keys_NoDup.
Qed.


End Order.

(** ** Instances of the further conditional statements *)

Lemma list_year_csvs_returns_sorted_tail_witness :
  ["d/2020.csv"; "d/2021.csv"] <> [] /\
  StronglySorted String.le ["d/2020.csv"; "d/2021.csv"] /\
  ["d/2020.csv"; "d/2021.csv"]
    `suffix_of` sorted ["d/2021.csv"; "d/2019.csv"; "d/2020.csv"] /\
  forall f, f ∈ ["d/2020.csv"; "d/2021.csv"] ->
            f ∈ ["d/2021.csv"; "d/2019.csv"; "d/2020.csv"].
Proof.
  apply (list_year_csvs_returns_sorted_tail
           ["d/2021.csv"; "d/2019.csv"; "d/2020.csv"] (Some 2)).
  reflexivity.
Defined.

Lemma list_year_csvs_glob_order_witness :
  list_year_csvs ["d/2021.csv"; "d/2020.csv"] (Some 1)
  = list_year_csvs ["d/2020.csv"; "d/2021.csv"] (Some 1).
Proof.
  apply (list_year_csvs_glob_order ["d/2021.csv"; "d/2020.csv"]
           ["d/2020.csv"; "d/2021.csv"] (Some 1)).
  apply perm_swap.
Defined.

Lemma list_year_csvs_negative_limit_witness :
  list_year_csvs ["d/2021.csv"; "d/2019.csv"; "d/2020.csv"] (Some (-2))
  = if decide (Z.of_nat (length ["d/2021.csv"; "d/2019.csv"; "d/2020.csv"])
               <= - (-2))
    then Raise FileNotFoundError
    else Ok (drop (Z.to_nat (- (-2)))
               (sorted ["d/2021.csv"; "d/2019.csv"; "d/2020.csv"])).
Proof.
  apply (list_year_csvs_negative_limit
           ["d/2021.csv"; "d/2019.csv"; "d/2020.csv"] (-2)).
  lia.
Defined.

Lemma load_df_directory_witness :
  load_df two_year_directory "data" (Some 3)
  = (map ReadCsv ["data/2020.csv"; "data/2021.csv"],
     if decide (concat [[episode_in (Some "E01"); episode_in (Some "E09")]; []]
                = [])
     then Raise ValueError
     else Ok (concat [[episode_in (Some "E01"); episode_in (Some "E09")]; []])).
Proof.
  apply (load_df_directory two_year_directory "data" (Some 3)
           ["data/2020.csv"; "data/2021.csv"]
           [[episode_in (Some "E01"); episode_in (Some "E09")]; []]).
  - reflexivity.
  - reflexivity.
  - repeat constructor.
Defined.

Lemma load_df_stops_at_unreadable_witness :
  load_df unreadable_directory "data" (Some 3)
  = (map ReadCsv ([] ++ ["data/2020.csv"]), Raise FileNotFoundError).
Proof.
  apply (load_df_stops_at_unreadable unreadable_directory "data" (Some 3)
           [] ["data/2021.csv"] [] "data/2020.csv" FileNotFoundError).
  - reflexivity.
  - reflexivity.
  - constructor.
  - reflexivity.
Defined.

Lemma load_df_returns_rows_witness :
  [episode_in (Some "E01"); episode_in (Some "E09")] <> [] /\
  [ReadCsv "data/2020.csv"; ReadCsv "data/2021.csv"] <> [] /\
  Forall (fun ev => is_read ev = true)
    [ReadCsv "data/2020.csv"; ReadCsv "data/2021.csv"] /\
  (isdir two_year_directory "data" = false ->
   [ReadCsv "data/2020.csv"; ReadCsv "data/2021.csv"] = [ReadCsv "data"] /\
   read_csv two_year_directory "data"
   = Ok [episode_in (Some "E01"); episode_in (Some "E09")]).
Proof.
  apply (load_df_returns_rows two_year_directory "data" (Some 3)).
  reflexivity.
Defined.

Lemma attach_imd_first_row_wins_witness :
  Forall2
    (fun e j =>
       ep j = e /\
       ep_imd_quintile j
       = head (filter (fun r => r.1 = LSOA11 e) (lookup_pairs duplicated_lookup))
           ≫= snd)
    [episode_in (Some "E01"); episode_in (Some "E09"); episode_in None]
    [mkJoined (episode_in (Some "E01")) (Some 1);
     mkJoined (episode_in (Some "E09")) None;
     mkJoined (episode_in None) None].
Proof.
  apply (attach_imd_first_row_wins
           [episode_in (Some "E01"); episode_in (Some "E09"); episode_in None]
           duplicated_lookup).
  reflexivity.
Defined.

Lemma main_success_witness :
  exists t1 df imd j,
    load_df two_year_directory "data" (Some 3) = (t1, Ok df) /\
    df <> [] /\
    read_parquet two_year_directory "imd.parquet" = Ok imd /\
    attach_imd_frame df imd = Ok j /\
    length j = length df /\
    (main sample_parse_text sample_timestamp_to_string two_year_directory
       "data" "imd.parquet" "out/spells.parquet" (Some 3)).1
    = (t1 ++ [ReadParquet "imd.parquet"; Makedirs "out/spells.parquet";
              ToParquet "out/spells.parquet"
                (clean_and_collapse sample_parse_text
                   sample_timestamp_to_string j)])%list.
Proof.
  apply (main_success sample_parse_text sample_timestamp_to_string
           two_year_directory "data" "imd.parquet" "out/spells.parquet" (Some 3)).
  vm_compute. reflexivity.
Defined.

